(** * reconocimiento: camera lifecycle and prediction loop of [app.js]

    A shallow embedding of the page script [src/app.js].  The script keeps
    three module-level variables ([currentStream], [model],
    [predictInterval]), drives a [<video>] element and a results list, and
    talks to three collaborators: the media-capture API, the MobileNet
    loader/classifier and the timer API.

    Every [async] function of the script is cut at its [await]s on a
    collaborator: the code between two such suspension points runs without
    interruption (one event-loop task together with its microtasks), and
    the part after the [await] is kept as a pending continuation until the
    collaborator settles the promise.  The resulting transition system is
    the function [step]; the collaborators' answers are the events.

    An [await] on a promise that is already settled (the cached model, a
    [runOnce] that has run to its end) resumes in the microtask checkpoint
    of the same task, before any other event is delivered; [step] runs
    through it.

    The elements [#webcam], [#results] and [#predictions] exist; the [h3]
    inside [#results], which the script tests for on page load, may be
    missing.  [window.mobilenet] is there, the page includes its script.
    Interval handles are positive, as the timer API gives them, so the
    script's truth tests on [predictInterval] are tests for [Some]. *)

From Stdlib Require Import ZArith List String Ascii Bool Lia PeanoNat.
From Stdlib Require Import Floats.SpecFloat.
From Stdlib Require Import DecimalString.
Import ListNotations.

Local Open Scope string_scope.

(** ** JavaScript numbers

    A Number is an IEEE-754 binary64 value, written here with the
    axiom-free [spec_float] of the standard library ([prec = 53],
    [emax = 1024]). *)

Module JSNumber.

Definition prec : Z := 53.
Definition emax : Z := 1024.

Definition number : Type := spec_float.

Definition mul (x y : number) : number := SFmul prec emax x y.
Definition div (x y : number) : number := SFdiv prec emax x y.

(** An integer literal. *)
Definition of_Z (z : Z) : number := binary_normalize prec emax z 0 false.

(** A decimal literal [num / 10^k]: the double nearest to the quotient,
    which is what a correctly rounded division of two exact integers
    yields. *)
Definition of_decimal (num : Z) (k : nat) : number :=
  div (of_Z num) (of_Z (10 ^ Z.of_nat k)).

(** The literal [100] of [p.probability * 100]. *)
Definition hundred : number := S754_finite false 7036874417766400 (-46).

(** [ge_pow10 m e k]: is [m * 2^e >= 10^k] ? *)
Definition ge_pow10 (m : positive) (e : Z) (k : Z) : bool :=
  if (0 <=? e)%Z
  then (10 ^ k <=? Z.pos m * 2 ^ e)%Z
  else (10 ^ k * 2 ^ (- e) <=? Z.pos m)%Z.

(** The integer [n] for which [n / 10^f - m * 2^e] is as close to zero as
    possible, the larger one when there are two. *)
Definition scaled_round (f : nat) (m : positive) (e : Z) : Z :=
  let p := (10 ^ Z.of_nat f)%Z in
  if (0 <=? e)%Z
  then (Z.pos m * 2 ^ e * p)%Z
  else ((2 * Z.pos m * p + 2 ^ (- e)) / 2 ^ (1 - e))%Z.

Fixpoint zeros (k : nat) : string :=
  match k with
  | O => EmptyString
  | S k' => String "0"%char (zeros k')
  end.

Definition digits (n : Z) : string :=
  NilZero.string_of_uint (N.to_uint (Z.to_N n)).

(** Step 10 of [Number.prototype.toFixed]: the digits of [n] with a
    decimal point before the last [f] of them. *)
Definition place_point (f : nat) (n : Z) : string :=
  let m := digits n in
  match f with
  | O => m
  | S _ =>
      let k := String.length m in
      let m' := if (k <=? f)%nat then zeros (f + 1 - k) ++ m else m in
      let k' := String.length m' in
      substring 0 (k' - f) m' ++ "." ++ substring (k' - f) f m'
  end.

Section ToFixed.

(** [Number::toString] for finite values of magnitude at least [10^21]
    (exponential notation with the shortest digit string, whose last
    digit ECMAScript leaves to the engine). *)
Variable Number_toString : number -> string.

Definition toFixed (x : number) (f : nat) : string :=
  match x with
  | S754_nan => "NaN"
  | S754_infinity false => "Infinity"
  | S754_infinity true => "-Infinity"
  | S754_zero _ => place_point f 0
  | S754_finite sx m e =>
      let s := if sx then "-" else "" in
      if ge_pow10 m e 21
      then s ++ Number_toString (S754_finite false m e)
      else s ++ place_point f (scaled_round f m e)
  end.

End ToFixed.

End JSNumber.

(** ** Strings, regular expression of the device selector *)

Module JSString.

(** [Canonicalize] of a case-insensitive, non-unicode regular expression:
    the character's upper case, and a character outside ASCII is never
    folded onto an ASCII one.  Labels are sequences of UTF-8 bytes. *)
Definition canonicalize (c : ascii) : ascii :=
  if (("a" <=? c) && (c <=? "z"))%char
  then ascii_of_nat (nat_of_ascii c - 32)
  else c.

Fixpoint map (f : ascii -> ascii) (s : string) : string :=
  match s with
  | EmptyString => EmptyString
  | String c s' => String (f c) (map f s')
  end.

Definition toUpperCase : string -> string := map canonicalize.

(** Does the literal [p] match at the start of [s], ignoring case? *)
Fixpoint match_here (p s : string) : bool :=
  match p, s with
  | EmptyString, _ => true
  | String _ _, EmptyString => false
  | String a p', String b s' =>
      (canonicalize a =? canonicalize b)%char && match_here p' s'
  end.

(** A regular expression that is an alternation of literals, flag [i]. *)
Definition alternation : Type := list string.

Definition match_at (re : alternation) (s : string) : bool :=
  existsb (fun p => match_here p s) re.

(** [re.test(s)]: some alternative matches at some position. *)
Fixpoint test (re : alternation) (s : string) : bool :=
  match_at re s ||
  match s with
  | EmptyString => false
  | String _ s' => test re s'
  end.

(** [s.includes(p)], case-sensitive. *)
Fixpoint includes (s p : string) : bool :=
  prefix p s ||
  match s with
  | EmptyString => false
  | String _ s' => includes s' p
  end.

End JSString.

(** ** Values exchanged with the collaborators *)

Definition TrackId : Type := nat.
Definition TimerId : Type := nat.
Definition PromiseId : Type := nat.

(** The object returned by [mobilenet.load()], known by its identity. *)
Definition Model : Type := nat.

Record MediaStream : Type := mkStream {
  streamId : nat;
  getTracks : list TrackId
}.

Inductive DeviceKind : Type := videoinput | audioinput | audiooutput.

Record MediaDeviceInfo : Type := mkDevice {
  deviceId : string;
  kind : DeviceKind;
  label : string
}.

Record Prediction : Type := mkPrediction {
  className : string;
  probability : JSNumber.number
}.

Record JSError : Type := mkError {
  errName : string;
  message : string
}.

(** [navigator.mediaDevices], and whether it has [getUserMedia]. *)
Inductive Navigator : Type :=
| NoMediaDevices
| MediaDevices (getUserMedia : bool).

Inductive ConsoleEntry : Type :=
| ConsoleWarn (text : string) (err : option JSError)
| ConsoleError (text : string) (err : option JSError).

(** Methods the script calls on the video element. *)
Inductive VideoMethod : Type := Play | Pause.

Record Video : Type := mkVideo {
  srcObject : option MediaStream;
  muted : bool;
  invoked : list VideoMethod       (* calls of play() and pause(), in order *)
}.

Fixpoint tracks_eqb (a b : list TrackId) : bool :=
  match a, b with
  | [], [] => true
  | x :: a', y :: b' => (x =? y)%nat && tracks_eqb a' b'
  | _, _ => false
  end.

(** Same stream object: same identity, same tracks. *)
Definition MediaStream_eqb (a b : MediaStream) : bool :=
  (streamId a =? streamId b)%nat && tracks_eqb (getTracks a) (getTracks b).

Definition DeviceKind_eqb (a b : DeviceKind) : bool :=
  match a, b with
  | videoinput, videoinput | audioinput, audioinput
  | audiooutput, audiooutput => true
  | _, _ => false
  end.

(** ** Suspension points

    One constructor per [await] on a collaborator's promise; the
    constructor stands for the rest of the [async] function(s) waiting
    there. *)
Inductive Cont : Type :=
| AwaitFacingStream               (* startCamera, getUserMedia, facingMode *)
| AwaitDevices                    (* startCamera, enumerateDevices *)
| AwaitExactStream (id : string)  (* startCamera, getUserMedia, deviceId *)
| AwaitPlay                       (* attachStream, videoEl.play().catch *)
| AwaitLoad                       (* loadModel inside startPredictions *)
| AwaitFirstPass                  (* runOnce awaited by startPredictions *)
| AwaitTickPass.                  (* runOnce run by the interval *)

Inductive Value : Type :=
| VUndefined
| VStream (st : MediaStream)
| VDevices (ds : list MediaDeviceInfo)
| VModel (m : Model)
| VPredictions (preds : option (list Prediction)).

Inductive Settlement : Type :=
| Fulfilled (v : Value)
| Rejected (e : JSError).

Inductive Event : Type :=
| DOMContentLoaded
| VisibilityChange (hidden : bool)
| CallStartCamera                 (* window.startCamera() *)
| CallStopCamera                  (* window.stopCamera() *)
| Settle (p : PromiseId) (r : Settlement)
| Tick (t : TimerId).

(** ** The state: module variables, document, platform *)

Record State : Type := mkState {
  (* module variables *)
  currentStream : option MediaStream;
  model : option Model;
  predictInterval : option TimerId;
  (* document *)
  videoEl : Video;
  statusText : option string;      (* text of the h3 in #results, if any *)
  predictionsList : list string;   (* text of the li children of #predictions *)
  (* platform *)
  navigator : Navigator;
  timers : list TimerId;           (* intervals set and not cleared *)
  nextTimer : TimerId;
  stoppedTracks : list TrackId;
  acquired : list MediaStream;     (* streams handed out by getUserMedia *)
  loadCalls : nat;                 (* calls of window.mobilenet.load *)
  alerts : list string;
  console : list ConsoleEntry;
  pending : list (PromiseId * Cont);
  nextPromise : PromiseId
}.

(** Field updates ([s.f = v]). *)
Definition set_currentStream (v : option MediaStream) (s : State) : State :=
  mkState v (model s) (predictInterval s) (videoEl s) (statusText s)
    (predictionsList s) (navigator s) (timers s) (nextTimer s)
    (stoppedTracks s) (acquired s) (loadCalls s) (alerts s) (console s)
    (pending s) (nextPromise s).

Definition set_model (v : option Model) (s : State) : State :=
  mkState (currentStream s) v (predictInterval s) (videoEl s) (statusText s)
    (predictionsList s) (navigator s) (timers s) (nextTimer s)
    (stoppedTracks s) (acquired s) (loadCalls s) (alerts s) (console s)
    (pending s) (nextPromise s).

Definition set_predictInterval (v : option TimerId) (s : State) : State :=
  mkState (currentStream s) (model s) v (videoEl s) (statusText s)
    (predictionsList s) (navigator s) (timers s) (nextTimer s)
    (stoppedTracks s) (acquired s) (loadCalls s) (alerts s) (console s)
    (pending s) (nextPromise s).

Definition set_videoEl (v : Video) (s : State) : State :=
  mkState (currentStream s) (model s) (predictInterval s) v (statusText s)
    (predictionsList s) (navigator s) (timers s) (nextTimer s)
    (stoppedTracks s) (acquired s) (loadCalls s) (alerts s) (console s)
    (pending s) (nextPromise s).

Definition set_statusText (v : option string) (s : State) : State :=
  mkState (currentStream s) (model s) (predictInterval s) (videoEl s) v
    (predictionsList s) (navigator s) (timers s) (nextTimer s)
    (stoppedTracks s) (acquired s) (loadCalls s) (alerts s) (console s)
    (pending s) (nextPromise s).

Definition set_predictionsList (v : list string) (s : State) : State :=
  mkState (currentStream s) (model s) (predictInterval s) (videoEl s)
    (statusText s) v (navigator s) (timers s) (nextTimer s)
    (stoppedTracks s) (acquired s) (loadCalls s) (alerts s) (console s)
    (pending s) (nextPromise s).

Definition set_timers (v : list TimerId) (s : State) : State :=
  mkState (currentStream s) (model s) (predictInterval s) (videoEl s)
    (statusText s) (predictionsList s) (navigator s) v (nextTimer s)
    (stoppedTracks s) (acquired s) (loadCalls s) (alerts s) (console s)
    (pending s) (nextPromise s).

Definition set_nextTimer (v : TimerId) (s : State) : State :=
  mkState (currentStream s) (model s) (predictInterval s) (videoEl s)
    (statusText s) (predictionsList s) (navigator s) (timers s) v
    (stoppedTracks s) (acquired s) (loadCalls s) (alerts s) (console s)
    (pending s) (nextPromise s).

Definition set_stoppedTracks (v : list TrackId) (s : State) : State :=
  mkState (currentStream s) (model s) (predictInterval s) (videoEl s)
    (statusText s) (predictionsList s) (navigator s) (timers s)
    (nextTimer s) v (acquired s) (loadCalls s) (alerts s) (console s)
    (pending s) (nextPromise s).

Definition set_acquired (v : list MediaStream) (s : State) : State :=
  mkState (currentStream s) (model s) (predictInterval s) (videoEl s)
    (statusText s) (predictionsList s) (navigator s) (timers s)
    (nextTimer s) (stoppedTracks s) v (loadCalls s) (alerts s) (console s)
    (pending s) (nextPromise s).

Definition set_loadCalls (v : nat) (s : State) : State :=
  mkState (currentStream s) (model s) (predictInterval s) (videoEl s)
    (statusText s) (predictionsList s) (navigator s) (timers s)
    (nextTimer s) (stoppedTracks s) (acquired s) v (alerts s) (console s)
    (pending s) (nextPromise s).

Definition set_alerts (v : list string) (s : State) : State :=
  mkState (currentStream s) (model s) (predictInterval s) (videoEl s)
    (statusText s) (predictionsList s) (navigator s) (timers s)
    (nextTimer s) (stoppedTracks s) (acquired s) (loadCalls s) v (console s)
    (pending s) (nextPromise s).

Definition set_console (v : list ConsoleEntry) (s : State) : State :=
  mkState (currentStream s) (model s) (predictInterval s) (videoEl s)
    (statusText s) (predictionsList s) (navigator s) (timers s)
    (nextTimer s) (stoppedTracks s) (acquired s) (loadCalls s) (alerts s) v
    (pending s) (nextPromise s).

Definition set_pending (v : list (PromiseId * Cont)) (s : State) : State :=
  mkState (currentStream s) (model s) (predictInterval s) (videoEl s)
    (statusText s) (predictionsList s) (navigator s) (timers s)
    (nextTimer s) (stoppedTracks s) (acquired s) (loadCalls s) (alerts s)
    (console s) v (nextPromise s).

Definition set_nextPromise (v : PromiseId) (s : State) : State :=
  mkState (currentStream s) (model s) (predictInterval s) (videoEl s)
    (statusText s) (predictionsList s) (navigator s) (timers s)
    (nextTimer s) (stoppedTracks s) (acquired s) (loadCalls s) (alerts s)
    (console s) (pending s) v.

(** How a piece of an [async] function ends: with a value, with an
    exception, or suspended at an [await]. *)
Inductive Completion (A : Type) : Type :=
| Returned (a : A)
| Thrown (e : JSError)
| Suspended.
Arguments Returned {A} a.
Arguments Thrown {A} e.
Arguments Suspended {A}.

(** ** Platform operations *)

Definition console_warn (text : string) (e : option JSError) (s : State)
  : State :=
  set_console (console s ++ [ConsoleWarn text e]) s.

Definition console_error (text : string) (e : option JSError) (s : State)
  : State :=
  set_console (console s ++ [ConsoleError text e]) s.

Definition alert (text : string) (s : State) : State :=
  set_alerts (alerts s ++ [text]) s.

(** [await] on a fresh promise of a collaborator: the rest of the function
    is parked under the promise's identity. *)
Definition await (k : Cont) (s : State) : State :=
  set_nextPromise (S (nextPromise s))
    (set_pending (pending s ++ [(nextPromise s, k)]) s).

(** [setInterval(runOnce, PREDICTION_INTERVAL)]: a fresh positive handle.
    Time is not modelled; the firing of the interval is the event [Tick]. *)
Definition setInterval (s : State) : TimerId * State :=
  let t := nextTimer s in
  (t, set_nextTimer (S t) (set_timers (timers s ++ [t]) s)).

Definition clearInterval (t : TimerId) (s : State) : State :=
  set_timers (filter (fun t' => negb (t' =? t)%nat) (timers s)) s.

(** [track.stop()] for every track of [st]. *)
Definition stop_tracks (st : MediaStream) (s : State) : State :=
  set_stoppedTracks (stoppedTracks s ++ getTracks st) s.

Definition video_set_srcObject (v : option MediaStream) (s : State) : State :=
  set_videoEl (mkVideo v (muted (videoEl s)) (invoked (videoEl s))) s.

Definition video_set_muted (b : bool) (s : State) : State :=
  set_videoEl (mkVideo (srcObject (videoEl s)) b (invoked (videoEl s))) s.

Definition video_invoke (m : VideoMethod) (s : State) : State :=
  set_videoEl
    (mkVideo (srcObject (videoEl s)) (muted (videoEl s))
       (invoked (videoEl s) ++ [m])) s.

(** The [TypeError] of reading or writing a property of [null]. *)
Definition null_property : JSError :=
  mkError "TypeError" "Cannot access a property of null".

(** [Error.prototype.toString]. *)
Definition error_toString (e : JSError) : string :=
  if (errName e =? "")%string then message e
  else if (message e =? "")%string then errName e
  else errName e ++ ": " ++ message e.

(** [navigator.mediaDevices && navigator.mediaDevices.getUserMedia] *)
Definition api_available (n : Navigator) : bool :=
  match n with
  | NoMediaDevices => false
  | MediaDevices g => g
  end.

(** An engine whose [Number::toString] is of no interest here. *)
Definition sample_toString : JSNumber.number -> string := fun _ => "1e+21".

(** ** The script *)

Section App.

(** The engine's [Number::toString], see [JSNumber.toFixed]. *)
Variable Number_toString : JSNumber.number -> string.

(** *** Render/display: [updatePredictions] *)

(** [while (list.firstChild) list.removeChild(list.firstChild)] *)
Fixpoint remove_children (l : list string) : list string :=
  match l with
  | [] => []
  | _ :: rest => remove_children rest
  end.

Definition appendChild (l : list string) (li : string) : list string :=
  l ++ [li].

(** The template literal of an entry. *)
Definition entry_text (p : Prediction) : string :=
  className p ++ " — " ++
  JSNumber.toFixed Number_toString
    (JSNumber.mul (probability p) JSNumber.hundred) 2 ++ "%".

Definition no_predictions : string := "No hay predicciones".

(** The children of the list after [updatePredictions(preds)], from its
    children before; [preds] is [None] for [null]/[undefined]. *)
Definition render_list (preds : option (list Prediction)) (l : list string)
  : list string :=
  let cleared := remove_children l in
  match preds with
  | None | Some [] => appendChild cleared no_predictions
  | Some ps => fold_left (fun l p => appendChild l (entry_text p)) ps cleared
  end.

Definition updatePredictions (preds : option (list Prediction)) (s : State)
  : State :=
  set_predictionsList (render_list preds (predictionsList s)) s.

(** *** Prediction loop and stream lifecycle *)

Definition stopPredictions (s : State) : State :=
  let s1 :=
    match predictInterval s with
    | Some t => set_predictInterval None (clearInterval t s)
    | None => s
    end in
  updatePredictions (Some []) s1.

(** Assigning [null] to [srcObject] does not throw, so the [catch] with
    [removeAttribute] is never entered. *)
Definition stopCamera (s : State) : State :=
  match currentStream s with
  | None => s
  | Some st =>
      let s1 := stop_tracks st s in
      let s2 := set_currentStream None s1 in
      let s3 := video_invoke Pause s2 in
      let s4 := video_set_srcObject None s3 in
      stopPredictions s4
  end.

(** [runOnce] up to its [await]: [model.classify(videoEl)] is called and
    the function waits under [k]; with no model the call itself throws
    and is caught at once.  The flag tells whether it is waiting. *)
Definition runOnce (k : Cont) (s : State) : State * bool :=
  match model s with
  | Some _ => (await k s, true)
  | None =>
      (console_error "Error en clasificación:" (Some null_property) s, false)
  end.

(** [runOnce] after [model.classify] settled. *)
Definition runOnce_resume (r : Settlement) (s : State) : option State :=
  match r with
  | Fulfilled (VPredictions preds) => Some (updatePredictions preds s)
  | Fulfilled _ => None
  | Rejected e => Some (console_error "Error en clasificación:" (Some e) s)
  end.

(** [resultsEl.querySelector('h3').textContent = text]; [None] stands for
    the [TypeError] of a page without that heading. *)
Definition set_heading (text : string) (s : State) : option State :=
  match statusText s with
  | Some _ => Some (set_statusText (Some text) s)
  | None => None
  end.

Definition model_load_failed : string := "Error cargando modelo".

(** The [catch] block of [loadModel], entered with [err]. *)
Definition loadModel_catch (err : JSError) (s : State)
  : State * Completion Model :=
  let s1 := console_error "Error cargando MobileNet:" (Some err) s in
  match set_heading model_load_failed s1 with
  | Some s2 => (s2, Thrown err)
  | None => (s1, Thrown null_property)
  end.

(** [loadModel] up to [await window.mobilenet.load()]. *)
Definition loadModel (s : State) : State * Completion Model :=
  match model s with
  | Some m => (s, Returned m)
  | None =>
      match set_heading "Cargando modelo..." s with
      | Some s1 =>
          (await AwaitLoad (set_loadCalls (S (loadCalls s1)) s1), Suspended)
      | None => loadModel_catch null_property s
      end
  end.

(** [loadModel] after [window.mobilenet.load()] settled. *)
Definition loadModel_resume (r : Settlement) (s : State)
  : option (State * Completion Model) :=
  match r with
  | Fulfilled (VModel m) =>
      let s1 := set_model (Some m) s in
      match set_heading "Modelo cargado" s1 with
      | Some s2 => Some (s2, Returned m)
      | None => Some (loadModel_catch null_property s1)
      end
  | Fulfilled _ => None
  | Rejected e => Some (loadModel_catch e s)
  end.

(** [startPredictions] after [await runOnce()]. *)
Definition startPredictions_afterFirstPass (s : State) : State :=
  let (t, s1) := setInterval s in
  set_predictInterval (Some t) s1.

(** [startPredictions] after [await loadModel()]. *)
Definition startPredictions_afterLoad (c : Completion Model) (s : State)
  : State :=
  match c with
  | Suspended => s
  | Thrown _ =>
      console_error "No se puede iniciar predicciones sin el modelo" None s
  | Returned _ =>
      match predictInterval s with
      | Some _ => s
      | None =>
          let (s1, waiting) := runOnce AwaitFirstPass s in
          if waiting then s1 else startPredictions_afterFirstPass s1
      end
  end.

Definition startPredictions (s : State) : State :=
  match currentStream s with
  | None => s
  | Some _ =>
      let (s1, c) := loadModel s in
      startPredictions_afterLoad c s1
  end.

(** Assigning [srcObject] and [muted] and calling [play] do not throw, so
    the [catch] of [attachStream] is never entered. *)
Definition attachStream (stream : MediaStream) (s : State) : State :=
  let s1 := match currentStream s with
            | Some _ => stopCamera s
            | None => s
            end in
  let s2 := set_currentStream (Some stream) s1 in
  let s3 := video_set_srcObject (Some stream) s2 in
  let s4 := video_set_muted true s3 in
  let s5 := await AwaitPlay (video_invoke Play s4) in
  startPredictions s5.

(** *** Device selector *)

Definition backRegex : JSString.alternation :=
  ["back"; "rear"; "environment"; "trasera"; "posterior"].

Definition is_back (d : MediaDeviceInfo) : bool :=
  JSString.test backRegex (label d).

Definition no_video_devices : JSError :=
  mkError "Error" "No se encontraron dispositivos de vídeo.".

(** The fallback of [startCamera] between [enumerateDevices] and the
    second [getUserMedia]: the chosen device, or the exception. *)
Definition chooseDevice (devices : list MediaDeviceInfo)
  : JSError + MediaDeviceInfo :=
  let videoDevices :=
    filter (fun d => DeviceKind_eqb (kind d) videoinput) devices in
  match videoDevices with
  | [] => inl no_video_devices
  | _ :: _ =>
      match find is_back videoDevices with
      | Some chosen => inr chosen
      | None =>
          match nth_error videoDevices (List.length videoDevices - 1) with
          | Some chosen => inr chosen
          | None => inl null_property
          end
      end
  end.

(** The last [catch] of [startCamera]. *)
Definition startCamera_catch (err : JSError) (s : State) : State :=
  let s1 := console_error "No se pudo acceder a la cámara:" (Some err) s in
  alert
    ("Error al acceder a la cámara: " ++
     (if (message err =? "")%string then error_toString err else message err))
    s1.

Definition getUserMedia_unavailable : string :=
  "getUserMedia no está disponible en este navegador. Usa un navegador moderno.".

(** [startCamera] up to its first [await]. *)
Definition startCamera (s : State) : State :=
  if api_available (navigator s)
  then await AwaitFacingStream s
  else alert getUserMedia_unavailable s.

(** The stream is entered in the platform's record of streams handed
    out, then passed to [attachStream]. *)
Definition deliver_stream (st : MediaStream) (s : State) : State :=
  attachStream st (set_acquired (acquired s ++ [st]) s).

(** *** The event loop *)

(** Removes the continuation parked under promise [p]. *)
Fixpoint take (p : PromiseId) (l : list (PromiseId * Cont))
  : option (Cont * list (PromiseId * Cont)) :=
  match l with
  | [] => None
  | (q, k) :: rest =>
      if (q =? p)%nat then Some (k, rest)
      else match take p rest with
           | Some (k', rest') => Some (k', (q, k) :: rest')
           | None => None
           end
  end.

(** The code that runs when the promise awaited at [k] settles with [r],
    up to the next suspension.  [None]: the collaborator cannot settle
    that promise with such a value. *)
Definition resume (k : Cont) (r : Settlement) (s : State) : option State :=
  match k with
  | AwaitFacingStream =>
      match r with
      | Fulfilled (VStream st) => Some (deliver_stream st s)
      | Fulfilled _ => None
      | Rejected e =>
          Some (await AwaitDevices
                  (console_warn
                     "No se pudo abrir con facingMode, intentando fallback por deviceId:"
                     (Some e) s))
      end
  | AwaitDevices =>
      match r with
      | Fulfilled (VDevices ds) =>
          match chooseDevice ds with
          | inr chosen => Some (await (AwaitExactStream (deviceId chosen)) s)
          | inl err => Some (startCamera_catch err s)
          end
      | Fulfilled _ => None
      | Rejected e => Some (startCamera_catch e s)
      end
  | AwaitExactStream _ =>
      match r with
      | Fulfilled (VStream st) => Some (deliver_stream st s)
      | Fulfilled _ => None
      | Rejected e => Some (startCamera_catch e s)
      end
  | AwaitPlay =>
      match r with
      | Fulfilled VUndefined => Some s
      | Fulfilled _ => None
      | Rejected e => Some (console_warn "video.play() rechazado:" (Some e) s)
      end
  | AwaitLoad =>
      match loadModel_resume r s with
      | Some (s1, c) => Some (startPredictions_afterLoad c s1)
      | None => None
      end
  | AwaitFirstPass =>
      match runOnce_resume r s with
      | Some s1 => Some (startPredictions_afterFirstPass s1)
      | None => None
      end
  | AwaitTickPass => runOnce_resume r s
  end.

(** One task of the event loop.  [None]: the event cannot happen in [s]
    (no such pending promise, no such live interval). *)
Definition step (s : State) (ev : Event) : option State :=
  match ev with
  | DOMContentLoaded =>
      let s1 := match set_heading "Inicializando cámara y modelo..." s with
                | Some s' => s'
                | None => s
                end in
      Some (startCamera s1)
  | VisibilityChange hidden =>
      if hidden
      then match currentStream s with
           | Some _ => Some (stopCamera s)
           | None => Some s
           end
      else Some s
  | CallStartCamera => Some (startCamera s)
  | CallStopCamera => Some (stopCamera s)
  | Settle p r =>
      match take p (pending s) with
      | Some (k, rest) => resume k r (set_pending rest s)
      | None => None
      end
  | Tick t =>
      if existsb (Nat.eqb t) (timers s)
      then Some (fst (runOnce AwaitTickPass s))
      else None
  end.

Fixpoint run (s : State) (evs : list Event) : option State :=
  match evs with
  | [] => Some s
  | ev :: rest =>
      match step s ev with
      | Some s' => run s' rest
      | None => None
      end
  end.

(** The page before any script event: nothing stored, no interval, the
    heading and list as the markup has them. *)
Definition initial (nav : Navigator) (heading : option string)
    (items : list string) : State :=
  mkState None None None (mkVideo None false []) heading items nav
    [] 1 [] [] 0 [] [] [] 0.

Definition reachable (s : State) : Prop :=
  exists nav heading items evs, run (initial nav heading items) evs = Some s.

(** *** Observations used in the statements *)

(** Every track of [st] has been stopped. *)
Definition fully_stopped (s : State) (st : MediaStream) : bool :=
  forallb (fun t => existsb (Nat.eqb t) (stoppedTracks s)) (getTracks st).

(** A stream the platform handed out that still has a live track. *)
Definition active (s : State) (st : MediaStream) : bool :=
  existsb (MediaStream_eqb st) (acquired s) && negb (fully_stopped s st).

Definition is_load (k : Cont) : bool :=
  match k with AwaitLoad => true | _ => false end.

Definition is_pass (k : Cont) : bool :=
  match k with AwaitFirstPass | AwaitTickPass => true | _ => false end.

Definition is_getUserMedia (k : Cont) : bool :=
  match k with
  | AwaitFacingStream | AwaitExactStream _ => true
  | _ => false
  end.

(** Is a call of [window.mobilenet.load] still unsettled? *)
Definition load_in_flight (s : State) : bool :=
  existsb (fun pk => is_load (snd pk)) (pending s).

Definition is_digit (c : ascii) : bool :=
  (("0" <=? c) && (c <=? "9"))%char.

Fixpoint has_digit (s : string) : bool :=
  match s with
  | EmptyString => false
  | String c s' => is_digit c || has_digit s'
  end.

(** *** Schedules of the event loop *)

(** The page of the schedules: media capture available, a status heading,
    an empty list. *)
Definition page : State := initial (MediaDevices true) (Some "") [].

(** How a call of [model.classify] ends: rejected, or fulfilled with the
    predictions. *)
Definition classified (r : JSError + option (list Prediction)) : Settlement :=
  match r with
  | inl e => Rejected e
  | inr preds => Fulfilled (VPredictions preds)
  end.

(** The tab is hidden while the model is still loading. *)
Definition hidden_while_loading
    (st : MediaStream) (m : Model) (r : JSError + option (list Prediction))
  : list Event :=
  [ DOMContentLoaded;                         (* awaits 0: getUserMedia *)
    Settle 0 (Fulfilled (VStream st));        (* 1: play, 2: mobilenet.load *)
    VisibilityChange true;                    (* stopCamera *)
    Settle 2 (Fulfilled (VModel m));          (* 3: first classify *)
    Settle 3 (classified r)                   (* setInterval *) ].

(** [startCamera] is called again, and its stream arrives, while the
    first pass of the first call is still classifying. *)
Definition overlapping_starts
    (st1 st2 : MediaStream) (m : Model)
    (r1 r2 : JSError + option (list Prediction))
  : list Event :=
  [ DOMContentLoaded;                          (* awaits 0: getUserMedia *)
    Settle 0 (Fulfilled (VStream st1));        (* 1: play, 2: mobilenet.load *)
    Settle 2 (Fulfilled (VModel m));           (* 3: first classify *)
    CallStartCamera;                           (* 4: getUserMedia *)
    Settle 4 (Fulfilled (VStream st2));        (* 5: play, 6: first classify *)
    Settle 3 (classified r1);                  (* setInterval, handle 1 *)
    Settle 6 (classified r2)                   (* setInterval, handle 2 *) ].

(** [startCamera] is called again, and its stream arrives, while the
    model requested by the first call is still loading. *)
Definition overlapping_loads
    (st1 st2 : MediaStream) (m1 m2 : Model) : list Event :=
  [ DOMContentLoaded;                          (* awaits 0: getUserMedia *)
    Settle 0 (Fulfilled (VStream st1));        (* 1: play, 2: mobilenet.load *)
    CallStartCamera;                           (* 3: getUserMedia *)
    Settle 3 (Fulfilled (VStream st2));        (* 4: play, 5: mobilenet.load *)
    Settle 2 (Fulfilled (VModel m1));          (* 6: first classify *)
    Settle 5 (Fulfilled (VModel m2))           (* 7: first classify *) ].

(** The same schedule up to the first of the two loads to succeed. *)
Definition first_of_overlapping_loads
    (st1 st2 : MediaStream) (m1 : Model) : list Event :=
  [ DOMContentLoaded;                          (* awaits 0: getUserMedia *)
    Settle 0 (Fulfilled (VStream st1));        (* 1: play, 2: mobilenet.load *)
    CallStartCamera;                           (* 3: getUserMedia *)
    Settle 3 (Fulfilled (VStream st2));        (* 4: play, 5: mobilenet.load *)
    Settle 2 (Fulfilled (VModel m1))           (* 6: first classify *) ].

(** *** Invariants *)

(** The part of the state the stream lifecycle is about. *)
Definition streams_view (s : State)
  : option MediaStream * list MediaStream * list TrackId :=
  (currentStream s, acquired s, stoppedTracks s).

(** Every stream handed out that is not the stored one is fully
    stopped. *)
Definition single_stream (s : State) : Prop :=
  forall st, In st (acquired s) -> currentStream s <> Some st ->
             fully_stopped s st = true.

(** The part of the state model loading is about. *)
Definition loads_view (s : State) : option Model * nat * bool :=
  (model s, loadCalls s, load_in_flight s).

(** Model [m] is cached, [n] loads were requested, none is unsettled. *)
Definition cached (m : Model) (n : nat) (s : State) : Prop :=
  loads_view s = (Some m, n, false).

(** A load is only ever requested on a page that has the heading. *)
Definition heading_for_load (s : State) : Prop :=
  statusText s = None -> load_in_flight s = false.

Definition has_heading (s : State) : bool :=
  match statusText s with Some _ => true | None => false end.

Definition heading_view (s : State) : bool * bool :=
  (has_heading s, load_in_flight s).

(** *** Sample pages and schedules *)

Definition front_stream : MediaStream := mkStream 1 [10; 11].
Definition back_stream : MediaStream := mkStream 2 [20].

(** The state after a schedule, from [s]. *)
Definition state_after (s : State) (evs : list Event) : State :=
  match run s evs with
  | Some s' => s'
  | None => s
  end.

(** A stream is stored and a second [startCamera] is waiting for its own. *)
Definition second_start : list Event :=
  [DOMContentLoaded; Settle 0 (Fulfilled (VStream front_stream));
   CallStartCamera].

Definition second_start_state : State :=
  Eval vm_compute in state_after page second_start.

(** The model has been loaded once; the camera is then stopped and started
    again. *)
Definition first_load : list Event :=
  [DOMContentLoaded; Settle 0 (Fulfilled (VStream front_stream));
   Settle 2 (Fulfilled (VModel 7))].

Definition loaded_state : State :=
  Eval vm_compute in state_after page first_load.

Definition restart : list Event :=
  [CallStopCamera; CallStartCamera; Settle 4 (Fulfilled (VStream back_stream));
   Settle 6 (Fulfilled (VPredictions (Some []))); Tick 1].

Definition restarted_state : State :=
  Eval vm_compute in state_after loaded_state restart.

(** The stream is attached and [mobilenet.load] is unsettled. *)
Definition loading : list Event :=
  [DOMContentLoaded; Settle 0 (Fulfilled (VStream front_stream))].

Definition loading_state : State :=
  Eval vm_compute in state_after page loading.

Definition network_error : JSError := mkError "TypeError" "Failed to fetch".

(** The loop runs and a pass of the interval is classifying. *)
Definition ticking : list Event :=
  [DOMContentLoaded; Settle 0 (Fulfilled (VStream front_stream));
   Settle 2 (Fulfilled (VModel 7));
   Settle 3 (Fulfilled
               (VPredictions
                  (Some [mkPrediction "cat" (JSNumber.of_decimal 8532 4)])));
   Tick 1].

Definition ticking_state : State :=
  Eval vm_compute in state_after page ticking.

Definition classify_error : JSError := mkError "Error" "Tensor is disposed.".

(** A prediction of 0.8532, the double nearest to it. *)
Definition cat_prediction : Prediction :=
  mkPrediction "cat" (JSNumber.of_decimal 8532 4).

(** A browser without [navigator.mediaDevices]. *)
Definition old_browser : State := initial NoMediaDevices (Some "") [].

(** *** Elementary updates

    Every task of the event loop is a sequence of the following updates
    of the state ([step_updates] below); each carries the test the script
    has made when it performs it. *)
Inductive update : State -> State -> Prop :=
| up_console s l : update s (set_console l s)
| up_alert s l : update s (set_alerts l s)
| up_await s k :
    is_load k = false -> is_pass k = false -> update s (await k s)
| up_heading s old text :
    statusText s = Some old -> update s (set_statusText (Some text) s)
| up_request_load s old :
    statusText s = Some old -> model s = None ->
    update s (await AwaitLoad (set_loadCalls (S (loadCalls s)) s))
| up_classify s k m :
    is_pass k = true -> model s = Some m -> update s (await k s)
| up_render s preds : update s (updatePredictions preds s)
| up_release s st :
    currentStream s = Some st ->
    update s
      (video_set_srcObject None
         (video_invoke Pause (set_currentStream None (stop_tracks st s))))
| up_clear s t :
    predictInterval s = Some t ->
    update s (set_predictInterval None (clearInterval t s))
| up_bind s st :
    currentStream s = None ->
    update s
      (video_invoke Play
         (video_set_muted true
            (video_set_srcObject (Some st) (set_currentStream (Some st) s))))
| up_acquire s st : update s (set_acquired (acquired s ++ [st]) s)
| up_take s p k rest :
    take p (pending s) = Some (k, rest) -> update s (set_pending rest s)
| up_loaded s p rest m :
    take p (pending s) = Some (AwaitLoad, rest) ->
    update s (set_model (Some m) (set_pending rest s))
| up_first_done s p rest :
    take p (pending s) = Some (AwaitFirstPass, rest) ->
    update s (startPredictions_afterFirstPass (set_pending rest s)).

Inductive updates : State -> State -> Prop :=
| ups_nil s : updates s s
| ups_cons s s1 s2 : update s s1 -> updates s1 s2 -> updates s s2.

(** The timer bookkeeping: the live intervals are distinct positive
    handles below the next one, and the stored handle is one of them. *)
Definition timers_ok (s : State) : Prop :=
  NoDup (timers s) /\
  (forall t, In t (timers s) -> 1 <= t < nextTimer s) /\
  1 <= nextTimer s /\
  (forall t, predictInterval s = Some t -> In t (timers s)).

(** Is a call of [model.classify] still unsettled? *)
Definition pass_in_flight (s : State) : bool :=
  existsb (fun pk => is_pass (snd pk)) (pending s).

(** Nothing of the prediction loop exists: no handle, no interval, no
    classification under way. *)
Definition loop_idle (s : State) : Prop :=
  predictInterval s = None /\ timers s = [] /\ pass_in_flight s = false.

(** The loop has a model to classify with. *)
Definition loop_has_model (s : State) : Prop :=
  model s <> None \/ loop_idle s.

(** The video element shows the stored stream, muted. *)
Definition video_follows_stream (s : State) : Prop :=
  srcObject (videoEl s) = currentStream s /\
  (currentStream s <> None -> muted (videoEl s) = true).

(** A page without the status heading on which nothing of the model or
    the loop exists. *)
Definition headless_idle (s : State) : Prop :=
  statusText s = None /\ model s = None /\ loadCalls s = 0 /\
  load_in_flight s = false /\ loop_idle s.

(** The page loads, the camera and the model arrive and the immediate
    pass settles. *)
Definition startup
    (st : MediaStream) (m : Model) (r : JSError + option (list Prediction))
  : list Event :=
  [ DOMContentLoaded;                         (* awaits 0: getUserMedia *)
    Settle 0 (Fulfilled (VStream st));        (* 1: play, 2: mobilenet.load *)
    Settle 2 (Fulfilled (VModel m));          (* 3: first classify *)
    Settle 3 (classified r)                   (* setInterval *) ].

(** The request with the facing-mode hint is rejected and the devices are
    enumerated. *)
Definition fallback (e : JSError) (devices : list MediaDeviceInfo)
  : list Event :=
  [ DOMContentLoaded;                         (* awaits 0: getUserMedia *)
    Settle 0 (Rejected e);                    (* 1: enumerateDevices *)
    Settle 1 (Fulfilled (VDevices devices))   (* 2: getUserMedia, exact *) ].

Definition permission_denied : JSError :=
  mkError "NotAllowedError" "Permission denied".

(** The first request is pending. *)
Definition requesting_state : State :=
  Eval vm_compute in state_after page [DOMContentLoaded].

(** The first request was rejected and the enumeration is pending. *)
Definition enumerating_state : State :=
  Eval vm_compute in
    state_after page [DOMContentLoaded; Settle 0 (Rejected permission_denied)].

Definition microphone : MediaDeviceInfo :=
  mkDevice "mic" audioinput "Back Microphone".

Definition two_cameras : list MediaDeviceInfo :=
  [microphone;
   mkDevice "cam0" videoinput "Front Camera";
   mkDevice "cam1" videoinput "Cámara TRASERA"].

(** A page whose results block has no heading, after the camera arrived. *)
Definition headless_page : State := initial (MediaDevices true) None [].

Definition headless_state : State :=
  Eval vm_compute in state_after headless_page loading.


(** *** Counting starts

    What a call of [startCamera] has under way or has produced: the
    continuations from its first request up to the immediate pass, and
    the intervals. *)
Definition is_start (k : Cont) : bool :=
  match k with
  | AwaitFacingStream | AwaitDevices | AwaitExactStream _
  | AwaitLoad | AwaitFirstPass => true
  | AwaitPlay | AwaitTickPass => false
  end.

(** The continuations of [startCamera] itself, before a stream arrives. *)
Definition is_request (k : Cont) : bool :=
  match k with
  | AwaitFacingStream | AwaitDevices | AwaitExactStream _ => true
  | _ => false
  end.

Definition weight (w : Cont -> bool) (l : list (PromiseId * Cont)) : nat :=
  List.length (filter (fun pk => w (snd pk)) l).

Arguments weight : simpl never.

Definition loop_count (s : State) : nat :=
  weight is_start (pending s) + List.length (timers s).

Definition load_count (s : State) : nat :=
  weight is_request (pending s) + loadCalls s.

(** The events that call [startCamera]. *)
Definition is_start_event (ev : Event) : bool :=
  match ev with
  | DOMContentLoaded | CallStartCamera => true
  | _ => false
  end.

Definition count_starts (evs : list Event) : nat :=
  List.length (filter is_start_event evs).

Definition b2n (b : bool) : nat := if b then 1 else 0.


(** ** Rendering *)

Lemma remove_children_empty (l : list string) : remove_children l = [].
Proof. induction l as [|x l IH]; simpl; auto. Qed.

Lemma forEach_appendChild (f : Prediction -> string) (ps : list Prediction) :
  forall acc,
    fold_left (fun l p => appendChild l (f p)) ps acc = (acc ++ map f ps)%list.
Proof.
  induction ps as [|p ps IH]; intros acc; simpl.
  - now rewrite app_nil_r.
  - rewrite IH. unfold appendChild. now rewrite <- app_assoc.
Qed.

(** [toFixed] rounds to the nearest multiple of [10^-f], upwards on a
    tie: with [n] the integer it prints and [m * 2^e] the absolute value,
    [n] is [m * 2^e * 10^f] when that is an integer and otherwise
    [n - 1/2 <= m * 2^e * 10^f < n + 1/2]. *)
Lemma scaled_round_nearest (f : nat) (m : positive) (e : Z) :
  let n := JSNumber.scaled_round f m e in
  let p := (10 ^ Z.of_nat f)%Z in
  ((0 <= e)%Z -> n = (Z.pos m * 2 ^ e * p)%Z) /\
  ((e < 0)%Z ->
   (2 ^ (- e) * (2 * n) <= 2 * Z.pos m * p + 2 ^ (- e)
    < 2 ^ (- e) * (2 * n + 2))%Z).
Proof.
  unfold JSNumber.scaled_round. cbv zeta. split; intros He.
  - apply Z.leb_le in He. now rewrite He.
  - assert (Hn : (0 <=? e)%Z = false) by (apply Z.leb_gt; lia).
    rewrite Hn.
    assert (Hd : (0 < 2 ^ (- e))%Z) by (apply Z.pow_pos_nonneg; lia).
    assert (Hp : (2 ^ (1 - e) = 2 * 2 ^ (- e))%Z).
    { replace (1 - e)%Z with (Z.succ (- e)) by lia.
      apply Z.pow_succ_r. lia. }
    rewrite Hp.
    generalize dependent (2 ^ (- e))%Z. intros d Hd _.
    generalize (2 * Z.pos m * 10 ^ Z.of_nat f + d)%Z. intros x.
    pose proof (Z.mul_div_le x (2 * d) ltac:(lia)).
    pose proof (Z.mul_succ_div_gt x (2 * d) ltac:(lia)).
    nia.
Qed.

Lemma length_append (a b : string) :
  String.length (a ++ b) = String.length a + String.length b.
Proof. induction a as [|c a IH]; simpl; auto. Qed.

Lemma append_assoc (a b c : string) : (a ++ b) ++ c = a ++ b ++ c.
Proof. induction a as [|x a IH]; simpl; congruence. Qed.

Lemma length_zeros (k : nat) : String.length (JSNumber.zeros k) = k.
Proof. induction k; simpl; auto. Qed.

Lemma length_substring (s : string) : forall n l,
  n + l <= String.length s -> String.length (substring n l s) = l.
Proof.
  induction s as [|c s IH]; intros [|n] [|l] H; simpl in *; try lia.
  - rewrite IH; lia.
  - apply IH. lia.
  - apply IH. lia.
Qed.

(** With [f > 0] digits requested, the text is an integer part of at least
    one character, a point, and exactly [f] characters. *)
Lemma place_point_shape (f : nat) (n : Z) :
  exists a b,
    JSNumber.place_point (S f) n = a ++ "." ++ b /\
    String.length b = S f /\ 1 <= String.length a.
Proof.
  unfold JSNumber.place_point.
  set (m := JSNumber.digits n).
  set (m' := if (String.length m <=? S f)%nat
             then JSNumber.zeros (S f + 1 - String.length m) ++ m else m).
  assert (Hk : S f + 1 <= String.length m').
  { unfold m'. destruct (String.length m <=? S f)%nat eqn:E.
    - apply Nat.leb_le in E. rewrite length_append, length_zeros. lia.
    - apply Nat.leb_gt in E. lia. }
  eexists. eexists. split; [reflexivity|].
  rewrite !length_substring by lia. lia.
Qed.

(** C4.  Whatever the list showed before, [updatePredictions] leaves
    exactly the placeholder (which has no digit and no percent sign) for
    a null or empty input, and otherwise one entry per prediction, in
    input order, reading label, dash, probability times 100 with two
    decimals, percent sign (for every probability whose hundredfold is
    finite and below 10^21, as all in the unit interval are, the number is
    written with a point followed by exactly two characters); the two
    predictions cat 0.8532 and dog 0.10 are rendered as cat 85.32 percent
    and dog 10.00 percent. *)
Theorem updatePredictions_renders :
  (forall (preds : option (list Prediction)) (s : State),
      predictionsList (updatePredictions preds s) =
      match preds with
      | None | Some [] => [no_predictions]
      | Some ps =>
          map (fun p =>
                 className p ++ " — " ++
                 JSNumber.toFixed Number_toString
                   (JSNumber.mul (probability p) JSNumber.hundred) 2 ++ "%")
              ps
      end) /\
  (forall (p : Prediction) (ps : list Prediction) (s : State) (i : nat),
      nth_error (predictionsList (updatePredictions (Some (p :: ps)) s)) i =
      option_map entry_text (nth_error (p :: ps) i)) /\
  (forall (p : Prediction) (sx : bool) (m : positive) (e : Z),
      JSNumber.mul (probability p) JSNumber.hundred = S754_finite sx m e ->
      JSNumber.ge_pow10 m e 21 = false ->
      exists a b,
        entry_text p = className p ++ " — " ++ (a ++ "." ++ b) ++ "%" /\
        String.length b = 2 /\ 1 <= String.length a) /\
  (has_digit no_predictions = false /\
   JSString.includes no_predictions "%" = false) /\
  (forall s : State,
      predictionsList
        (updatePredictions
           (Some [mkPrediction "cat" (JSNumber.of_decimal 8532 4);
                  mkPrediction "dog" (JSNumber.of_decimal 10 2)]) s) =
      ["cat — 85.32%"; "dog — 10.00%"]).
Proof.
  assert (H : forall preds s,
             predictionsList (updatePredictions preds s) =
             match preds with
             | None | Some [] => [no_predictions]
             | Some ps => map entry_text ps
             end).
  { intros [[|p ps]|] s; unfold updatePredictions, render_list; simpl;
      rewrite ?forEach_appendChild, remove_children_empty; reflexivity. }
  split; [exact H|]. split; [|split; [|split; [split; reflexivity|]]].
  - intros p ps s i. rewrite H. apply nth_error_map.
  - intros p sx m e Hx Hlt. unfold entry_text, JSNumber.toFixed.
    rewrite Hx, Hlt.
    destruct (place_point_shape 1 (JSNumber.scaled_round 2 m e))
      as (a & b & -> & Hb & Ha).
    exists ((if sx then "-" else "") ++ a), b.
    rewrite !append_assoc. repeat split; auto.
    rewrite length_append. lia.
  - intros s. rewrite H. reflexivity.
Qed.

(** ** No-op paths *)

(** C9.  With no stream stored, [stopCamera] returns at once: the call
    (from the page or on hiding the tab) yields the very same state, so
    the stream reference, the interval handle, the video element, the
    rendered list and everything else are untouched, and nothing is
    thrown. *)
Theorem stopCamera_without_stream_is_noop (s : State) :
  currentStream s = None ->
  stopCamera s = s /\
  step s CallStopCamera = Some s /\
  step s (VisibilityChange true) = Some s.
Proof.
  intros H. unfold step, stopCamera. rewrite H. auto.
Qed.

(** C10.  Without [navigator.mediaDevices], or without its
    [getUserMedia], [startCamera] shows the alert and returns: the state
    differs from the old one in the alert alone, so no promise is
    pending (no stream requested), the model is not loaded and no
    interval is set. *)
Theorem startCamera_without_api (s : State) :
  api_available (navigator s) = false ->
  step s CallStartCamera =
    Some (set_alerts (alerts s ++ [getUserMedia_unavailable]) s) /\
  (forall s', step s CallStartCamera = Some s' ->
     currentStream s' = currentStream s /\
     model s' = model s /\
     predictInterval s' = predictInterval s /\
     videoEl s' = videoEl s /\
     statusText s' = statusText s /\
     predictionsList s' = predictionsList s /\
     timers s' = timers s /\
     stoppedTracks s' = stoppedTracks s /\
     acquired s' = acquired s /\
     loadCalls s' = loadCalls s /\
     console s' = console s /\
     pending s' = pending s).
Proof.
  intros H. unfold step, startCamera. rewrite H. split; [reflexivity|].
  intros s' E. injection E as <-. simpl. repeat split.
Qed.

(** ** A failed classification pass *)

(** C8.  When [model.classify] rejects in a pass (the immediate one or
    one run by the interval), the error is logged and nothing else
    happens in that pass: the rendered list is as before, no interval is
    cleared (for a pass of the interval the set of intervals and the
    handle are unchanged), and every live interval can still fire,
    starting a new classification when a model is loaded. *)
Theorem failed_pass_is_skipped
    (s : State) (p : PromiseId) (k : Cont)
    (rest : list (PromiseId * Cont)) (e : JSError) :
  take p (pending s) = Some (k, rest) ->
  is_pass k = true ->
  exists s',
    step s (Settle p (Rejected e)) = Some s' /\
    predictionsList s' = predictionsList s /\
    console s' =
      (console s ++ [ConsoleError "Error en clasificación:" (Some e)])%list /\
    (forall t, In t (timers s) -> In t (timers s')) /\
    (k = AwaitTickPass ->
       timers s' = timers s /\ predictInterval s' = predictInterval s) /\
    (forall t, In t (timers s') ->
       exists s'',
         step s' (Tick t) = Some s'' /\
         predictionsList s'' = predictionsList s /\
         (model s <> None ->
            pending s'' =
              (pending s' ++ [(nextPromise s', AwaitTickPass)])%list)).
Proof.
  intros Htake Hk.
  destruct k; try discriminate Hk; unfold step; rewrite Htake; simpl;
    eexists; (split; [reflexivity|]); simpl.
  all: repeat match goal with |- _ /\ _ => split end; auto.
  all: try (intros t Ht; apply in_or_app; now left).
  all: try discriminate.
  all: intros t Ht;
    match goal with
    | |- context [existsb ?f ?l] =>
        replace (existsb f l) with true
          by (symmetry; apply existsb_exists; exists t; split;
              [exact Ht | apply Nat.eqb_refl])
    end;
    eexists; (split; [reflexivity|]);
    unfold runOnce; simpl; destruct (model s); simpl; split; auto;
    congruence.
Qed.

(** ** Device selector *)

Lemma match_here_spec (p s : string) :
  JSString.match_here p s = true <->
  exists mid post,
    s = mid ++ post /\ JSString.toUpperCase mid = JSString.toUpperCase p.
Proof.
  revert s. induction p as [|a p IH]; intros s; simpl.
  - split; [|reflexivity]. intros _. exists "", s. auto.
  - destruct s as [|b s]; simpl.
    + split; [discriminate|]. intros (mid & post & E & U).
      destruct mid; simpl in *; discriminate.
    + rewrite andb_true_iff, Ascii.eqb_eq, IH. split.
      * intros (Hc & mid & post & E & U). exists (String b mid), post.
        simpl. split; [now rewrite E|]. unfold JSString.toUpperCase in *.
        simpl. now rewrite U, Hc.
      * intros (mid & post & E & U). destruct mid as [|c mid];
          [discriminate U|]. simpl in E. injection E as -> ->.
        unfold JSString.toUpperCase in U. simpl in U. injection U as Hc U.
        split; [now rewrite Hc|]. exists mid, post. auto.
Qed.

(** [test] holds exactly of the strings with a substring equal, up to the
    case of ASCII letters, to one of the alternatives. *)
Lemma test_spec (re : JSString.alternation) (s : string) :
  JSString.test re s = true <->
  exists kw pre mid post,
    In kw re /\ s = pre ++ mid ++ post /\
    JSString.toUpperCase mid = JSString.toUpperCase kw.
Proof.
  induction s as [|c s IH]; simpl.
  - rewrite orb_false_r. unfold JSString.match_at. rewrite existsb_exists.
    split.
    + intros (kw & Hin & Hm). apply match_here_spec in Hm.
      destruct Hm as (mid & post & E & U). exists kw, "", mid, post. auto.
    + intros (kw & pre & mid & post & Hin & E & U). exists kw. split; auto.
      apply match_here_spec. destruct pre; [|discriminate E].
      exists mid, post. auto.
  - rewrite orb_true_iff, IH. unfold JSString.match_at.
    rewrite existsb_exists. split.
    + intros [(kw & Hin & Hm) | (kw & pre & mid & post & Hin & E & U)].
      * apply match_here_spec in Hm. destruct Hm as (mid & post & E & U).
        exists kw, "", mid, post. auto.
      * exists kw, (String c pre), mid, post. simpl. rewrite E. auto.
    + intros (kw & pre & mid & post & Hin & E & U).
      destruct pre as [|c' pre]; simpl in E.
      * left. exists kw. split; auto. apply match_here_spec.
        exists mid, post. auto.
      * right. injection E as -> ->. exists kw, pre, mid, post. auto.
Qed.

Lemma find_first {A : Type} (f : A -> bool) (l : list A) (x : A) :
  find f l = Some x ->
  exists before after,
    l = (before ++ x :: after)%list /\ f x = true /\
    forall y, In y before -> f y = false.
Proof.
  induction l as [|a l IH]; simpl; [discriminate|].
  destruct (f a) eqn:Fa.
  - intros [= ->]. exists [], l. simpl. intuition.
  - intros H. destruct (IH H) as (before & after & -> & Fx & Hb).
    exists (a :: before), after. simpl. repeat split; auto.
    intros y [<- | Hy]; auto.
Qed.

Lemma last_index {A : Type} (l : list A) :
  l <> [] ->
  exists front x,
    l = (front ++ [x])%list /\ nth_error l (List.length l - 1) = Some x.
Proof.
  intros H. destruct (exists_last H) as (front & x & ->).
  exists front, x. split; [reflexivity|].
  rewrite length_app. simpl.
  replace (List.length front + 1 - 1) with (List.length front) by lia.
  rewrite nth_error_app2 by lia. now rewrite Nat.sub_diag.
Qed.

(** C5.  Of a non-empty list of video devices the fallback picks the
    first one whose label contains, in any letter case, one of back,
    rear, environment, trasera, posterior, and the last device of the
    list when no label does; that device's id is the one requested.
    Front Camera, Back Camera gives Back Camera; Camera A, Camera B
    gives Camera B. *)
Theorem chooseDevice_prefers_back :
  (forall devices : list MediaDeviceInfo,
      let videoDevices :=
        filter (fun d => DeviceKind_eqb (kind d) videoinput) devices in
      videoDevices <> [] ->
      exists chosen,
        chooseDevice devices = inr chosen /\
        (forall s, resume AwaitDevices (Fulfilled (VDevices devices)) s =
                   Some (await (AwaitExactStream (deviceId chosen)) s)) /\
        ((exists before after,
             videoDevices = (before ++ chosen :: after)%list /\
             is_back chosen = true /\
             forall d, In d before -> is_back d = false)
         \/
         ((forall d, In d videoDevices -> is_back d = false) /\
          exists front, videoDevices = (front ++ [chosen])%list))) /\
  (forall d : MediaDeviceInfo,
      is_back d = true <->
      exists kw pre mid post,
        In kw ["back"; "rear"; "environment"; "trasera"; "posterior"] /\
        label d = pre ++ mid ++ post /\
        JSString.toUpperCase mid = JSString.toUpperCase kw) /\
  chooseDevice [mkDevice "cam0" videoinput "Front Camera";
                mkDevice "cam1" videoinput "Back Camera"] =
    inr (mkDevice "cam1" videoinput "Back Camera") /\
  chooseDevice [mkDevice "cam0" videoinput "Camera A";
                mkDevice "cam1" videoinput "Camera B"] =
    inr (mkDevice "cam1" videoinput "Camera B").
Proof.
  split; [|split; [|split; reflexivity]].
  - intros devices videoDevices Hne.
    assert (Hc : exists chosen,
               chooseDevice devices = inr chosen /\
               ((exists before after,
                    videoDevices = (before ++ chosen :: after)%list /\
                    is_back chosen = true /\
                    forall d, In d before -> is_back d = false)
                \/
                ((forall d, In d videoDevices -> is_back d = false) /\
                 exists front, videoDevices = (front ++ [chosen])%list))).
    { unfold chooseDevice. fold videoDevices.
      destruct videoDevices as [|d0 ds] eqn:Ev; [congruence|].
      rewrite <- Ev in *. clear Ev.
      destruct (find is_back videoDevices) as [chosen|] eqn:Ef.
      - exists chosen. split; [reflexivity|]. left.
        now apply find_first.
      - destruct (last_index videoDevices Hne) as (front & x & Hl & Hn).
        rewrite Hn. exists x. split; [reflexivity|]. right. split.
        + intros d Hd. exact (find_none _ _ Ef d Hd).
        + exists front. exact Hl. }
    destruct Hc as (chosen & Hc & Hsel). exists chosen.
    split; [exact Hc|]. split; [|exact Hsel].
    intros s. simpl. now rewrite Hc.
  - intros d. unfold is_back. apply test_spec.
Qed.

(** ** Stream lifecycle: at most one active stream *)

Lemma tracks_eqb_eq (a b : list TrackId) : tracks_eqb a b = true <-> a = b.
Proof.
  revert b. induction a as [|x a IH]; intros [|y b]; simpl;
    try (split; [discriminate | congruence]); [tauto|].
  rewrite andb_true_iff, Nat.eqb_eq, IH. split.
  - now intros [-> ->].
  - now intros [= -> ->].
Qed.

Lemma MediaStream_eqb_eq (a b : MediaStream) :
  MediaStream_eqb a b = true <-> a = b.
Proof.
  unfold MediaStream_eqb. destruct a as [i ts], b as [j us]; simpl.
  rewrite andb_true_iff, Nat.eqb_eq, tracks_eqb_eq. split.
  - now intros [-> ->].
  - now intros [= -> ->].
Qed.

Lemma MediaStream_eq_dec (a b : MediaStream) : {a = b} + {a <> b}.
Proof.
  destruct (MediaStream_eqb a b) eqn:E.
  - left. now apply MediaStream_eqb_eq.
  - right. intros H. apply MediaStream_eqb_eq in H. congruence.
Qed.

Lemma fully_stopped_grows (s s' : State) (extra : list TrackId)
    (st : MediaStream) :
  stoppedTracks s' = (stoppedTracks s ++ extra)%list ->
  fully_stopped s st = true -> fully_stopped s' st = true.
Proof.
  unfold fully_stopped. intros E H. rewrite forallb_forall in *.
  intros t Ht. specialize (H t Ht). rewrite existsb_exists in *.
  destruct H as (u & Hu & Htu). exists u. split; auto.
  rewrite E. apply in_or_app. now left.
Qed.

Lemma fully_stopped_own (s s' : State) (st : MediaStream) :
  stoppedTracks s' = (stoppedTracks s ++ getTracks st)%list ->
  fully_stopped s' st = true.
Proof.
  unfold fully_stopped. intros E. rewrite forallb_forall.
  intros t Ht. rewrite existsb_exists. exists t. split.
  - rewrite E. apply in_or_app. now right.
  - apply Nat.eqb_refl.
Qed.

(** What does not touch streams. *)
Lemma updatePredictions_streams preds s :
  streams_view (updatePredictions preds s) = streams_view s.
Proof. destruct preds as [[|? ?]|]; reflexivity. Qed.

Lemma stopPredictions_streams s :
  streams_view (stopPredictions s) = streams_view s.
Proof.
  unfold stopPredictions. rewrite updatePredictions_streams.
  destruct (predictInterval s); reflexivity.
Qed.

Lemma runOnce_streams k s :
  streams_view (fst (runOnce k s)) = streams_view s.
Proof. unfold runOnce. destruct (model s); reflexivity. Qed.

Lemma runOnce_resume_streams r s s' :
  runOnce_resume r s = Some s' -> streams_view s' = streams_view s.
Proof.
  destruct r as [[]|]; simpl; intros [= <-];
    auto using updatePredictions_streams.
Qed.

Lemma loadModel_catch_streams e s :
  streams_view (fst (loadModel_catch e s)) = streams_view s.
Proof.
  unfold loadModel_catch, set_heading. simpl.
  destruct (statusText s); reflexivity.
Qed.

Lemma loadModel_streams s :
  streams_view (fst (loadModel s)) = streams_view s.
Proof.
  unfold loadModel, loadModel_catch, set_heading.
  destruct (model s); simpl; [reflexivity|].
  destruct (statusText s); reflexivity.
Qed.

Lemma loadModel_resume_streams r s s' c :
  loadModel_resume r s = Some (s', c) -> streams_view s' = streams_view s.
Proof.
  unfold loadModel_resume, loadModel_catch, set_heading.
  destruct r as [[]|]; simpl; try discriminate;
    destruct (statusText s); intros [= <- <-]; reflexivity.
Qed.

Lemma afterFirstPass_streams s :
  streams_view (startPredictions_afterFirstPass s) = streams_view s.
Proof. reflexivity. Qed.

Lemma afterLoad_streams c s :
  streams_view (startPredictions_afterLoad c s) = streams_view s.
Proof.
  unfold startPredictions_afterLoad.
  destruct c; try reflexivity.
  destruct (predictInterval s); [reflexivity|].
  pose proof (runOnce_streams AwaitFirstPass s) as H.
  destruct (runOnce AwaitFirstPass s) as [s1 [|]]; simpl in H; auto.
Qed.

Lemma startPredictions_streams s :
  streams_view (startPredictions s) = streams_view s.
Proof.
  unfold startPredictions. destruct (currentStream s) eqn:E; [|reflexivity].
  pose proof (loadModel_streams s) as H.
  destruct (loadModel s) as [s1 c]. simpl in H.
  now rewrite afterLoad_streams.
Qed.

Lemma startCamera_streams s :
  streams_view (startCamera s) = streams_view s.
Proof. unfold startCamera. destruct (api_available _); reflexivity. Qed.

Lemma stopCamera_streams s :
  streams_view (stopCamera s) =
  (None, acquired s,
   match currentStream s with
   | Some st => (stoppedTracks s ++ getTracks st)%list
   | None => stoppedTracks s
   end).
Proof.
  unfold stopCamera. destruct (currentStream s) eqn:E.
  - now rewrite stopPredictions_streams.
  - unfold streams_view. now rewrite E.
Qed.

Lemma attachStream_streams st s :
  streams_view (attachStream st s) =
  (Some st, acquired s,
   match currentStream s with
   | Some old => (stoppedTracks s ++ getTracks old)%list
   | None => stoppedTracks s
   end).
Proof.
  unfold attachStream. rewrite startPredictions_streams.
  pose proof (stopCamera_streams s) as H.
  destruct (currentStream s) eqn:E; unfold streams_view in *; simpl.
  - now injection H as _ -> ->.
  - reflexivity.
Qed.

Lemma single_stream_frame s s' :
  streams_view s' = streams_view s -> single_stream s -> single_stream s'.
Proof.
  unfold streams_view, single_stream, fully_stopped.
  intros [= -> -> ->]. auto.
Qed.

Lemma single_stream_stopCamera s :
  single_stream s -> single_stream (stopCamera s).
Proof.
  intros H st Hin _. pose proof (stopCamera_streams s) as V.
  unfold streams_view in V. injection V as _ Ha Hs. rewrite Ha in Hin.
  destruct (currentStream s) as [cur|] eqn:E.
  - destruct (MediaStream_eq_dec cur st) as [->|N].
    + eapply fully_stopped_own; eauto.
    + eapply fully_stopped_grows; eauto. apply H; auto. congruence.
  - unfold fully_stopped. rewrite Hs. apply H; auto. congruence.
Qed.

Lemma deliver_stream_streams st s :
  streams_view (deliver_stream st s) =
  (Some st, (acquired s ++ [st])%list,
   match currentStream s with
   | Some old => (stoppedTracks s ++ getTracks old)%list
   | None => stoppedTracks s
   end).
Proof. unfold deliver_stream. now rewrite attachStream_streams. Qed.

Lemma single_stream_deliver st s :
  single_stream s -> single_stream (deliver_stream st s).
Proof.
  intros H x Hin Hx.
  pose proof (deliver_stream_streams st s) as V.
  unfold streams_view in V. injection V as Hc Ha Hs.
  rewrite Ha in Hin. rewrite Hc in Hx.
  apply in_app_or in Hin. destruct Hin as [Hin | [<- | []]]; [|congruence].
  destruct (currentStream s) as [cur|] eqn:E.
  - destruct (MediaStream_eq_dec cur x) as [->|N].
    + eapply fully_stopped_own; eauto.
    + eapply fully_stopped_grows; eauto. apply H; auto. congruence.
  - unfold fully_stopped. rewrite Hs. apply H; auto. congruence.
Qed.

Lemma single_stream_step s ev s' :
  step s ev = Some s' -> single_stream s -> single_stream s'.
Proof.
  intros Hstep Hs. destruct ev as [| hidden | | | p r | t]; simpl in Hstep.
  - injection Hstep as <-. eapply single_stream_frame; [|exact Hs].
    rewrite startCamera_streams. unfold set_heading.
    destruct (statusText s); reflexivity.
  - destruct hidden; [destruct (currentStream s) eqn:E|];
      injection Hstep as <-; auto using single_stream_stopCamera.
  - injection Hstep as <-. eapply single_stream_frame; [|exact Hs].
    apply startCamera_streams.
  - injection Hstep as <-. auto using single_stream_stopCamera.
  - destruct (take p (pending s)) as [[k rest]|]; [|discriminate].
    assert (H0 : single_stream (set_pending rest s))
      by (eapply single_stream_frame; [|exact Hs]; reflexivity).
    remember (set_pending rest s) as s0 eqn:E0. clear E0 Hs.
    destruct k; simpl in Hstep.
    + destruct r as [[]|]; try discriminate; injection Hstep as <-;
        auto using single_stream_deliver.
    + destruct r as [[]|]; try discriminate;
        [destruct (chooseDevice ds)|]; injection Hstep as <-; auto.
    + destruct r as [[]|]; try discriminate; injection Hstep as <-;
        auto using single_stream_deliver.
    + destruct r as [[]|]; try discriminate; injection Hstep as <-; auto.
    + destruct (loadModel_resume r s0) as [[s1 c]|] eqn:El; [|discriminate].
      injection Hstep as <-. eapply single_stream_frame; [|exact H0].
      rewrite afterLoad_streams. eauto using loadModel_resume_streams.
    + destruct (runOnce_resume r s0) as [s1|] eqn:Er; [|discriminate].
      injection Hstep as <-. eapply single_stream_frame; [|exact H0].
      rewrite afterFirstPass_streams. eauto using runOnce_resume_streams.
    + eapply single_stream_frame; [|exact H0].
      eauto using runOnce_resume_streams.
  - destruct (existsb (Nat.eqb t) (timers s)); [|discriminate].
    injection Hstep as <-. eapply single_stream_frame; [|exact Hs].
    apply runOnce_streams.
Qed.

Lemma single_stream_run evs : forall s s',
  run s evs = Some s' -> single_stream s -> single_stream s'.
Proof.
  induction evs as [|ev evs IH]; simpl; intros s s' H Hs.
  - now injection H as <-.
  - destruct (step s ev) as [s1|] eqn:E; [|discriminate].
    eauto using single_stream_step.
Qed.


Lemma single_stream_initial nav heading items :
  single_stream (initial nav heading items).
Proof. intros st []. Qed.

Lemma active_is_current s st :
  single_stream s -> active s st = true -> currentStream s = Some st.
Proof.
  unfold active. intros H Ha. apply andb_true_iff in Ha.
  destruct Ha as [Hin Hlive]. apply existsb_exists in Hin.
  destruct Hin as (x & Hin & Hx). apply MediaStream_eqb_eq in Hx. subst x.
  destruct (currentStream s) as [cur|] eqn:E.
  - destruct (MediaStream_eq_dec cur st) as [->|N]; [reflexivity|].
    rewrite H in Hlive; [discriminate | exact Hin | congruence].
  - rewrite H in Hlive; [discriminate | exact Hin | congruence].
Qed.

Lemma attachStream_stops_first st s :
  attachStream st s = attachStream st (stopCamera s).
Proof.
  pose proof (stopCamera_streams s) as V. unfold streams_view in V.
  injection V as Hc _ _.
  unfold attachStream at 2. rewrite Hc.
  unfold attachStream, stopCamera. now destruct (currentStream s).
Qed.

(** C1.  In every state the page can reach, a stream handed out by
    [getUserMedia] that still has a live track is the one stored in
    [currentStream], so at most one stream is active.  When a stream
    arrives while another is stored, [attachStream] first runs
    [stopCamera], after which nothing is stored and every track of the
    old stream is stopped, and only then stores the new stream, which is
    afterwards the only one that can be active. *)
Theorem one_active_stream
    (nav : Navigator) (heading : option string) (items : list string)
    (evs : list Event) (s : State) :
  run (initial nav heading items) evs = Some s ->
  (forall st, active s st = true -> currentStream s = Some st) /\
  (forall st1 st2,
      active s st1 = true -> active s st2 = true -> st1 = st2) /\
  (forall p k rest old new,
      currentStream s = Some old ->
      take p (pending s) = Some (k, rest) ->
      is_getUserMedia k = true ->
      exists mid s',
        mid = stopCamera
                (set_acquired (acquired s ++ [new]) (set_pending rest s)) /\
        currentStream mid = None /\
        fully_stopped mid old = true /\
        s' = attachStream new mid /\
        step s (Settle p (Fulfilled (VStream new))) = Some s' /\
        currentStream s' = Some new /\
        fully_stopped s' old = true /\
        (forall st, active s' st = true -> st = new) /\
        (forall t, In t (getTracks new) ->
                   ~ In t (stoppedTracks s) -> ~ In t (getTracks old) ->
                   active s' new = true)).
Proof.
  intros Hrun.
  assert (Hs : single_stream s)
    by (eapply single_stream_run; eauto using single_stream_initial).
  split; [|split].
  - intros st. now apply active_is_current.
  - intros st1 st2 H1 H2. apply (active_is_current _ _ Hs) in H1, H2.
    congruence.
  - intros p k rest old new Hcur Htake Hk.
    set (s0 := set_acquired (acquired s ++ [new]) (set_pending rest s)).
    assert (Hstep : step s (Settle p (Fulfilled (VStream new))) =
                    Some (attachStream new (stopCamera s0))).
    { unfold step. rewrite Htake. rewrite <- attachStream_stops_first.
      destruct k; try discriminate Hk; reflexivity. }
    pose proof (stopCamera_streams s0) as Vm.
    pose proof (attachStream_streams new (stopCamera s0)) as Va.
    unfold streams_view in Vm, Va.
    injection Vm as Hmc Hma Hms. injection Va as Hac Haa Has.
    rewrite Hmc in Has.
    assert (Hmid : fully_stopped (stopCamera s0) old = true).
    { apply (fully_stopped_own s0). rewrite Hms.
      unfold s0; simpl. now rewrite Hcur. }
    exists (stopCamera s0), (attachStream new (stopCamera s0)).
    repeat split; auto.
    + unfold fully_stopped in *. now rewrite Has.
    + intros st Hst.
      pose proof (single_stream_step _ _ _ Hstep Hs) as Hs'.
      apply (active_is_current _ _ Hs') in Hst. congruence.
    + intros t Ht Hfresh Hold. unfold active. apply andb_true_iff. split.
      * apply existsb_exists. exists new. split.
        -- rewrite Haa, Hma. unfold s0. simpl. apply in_or_app. right.
           now left.
        -- now apply MediaStream_eqb_eq.
      * apply negb_true_iff.
        destruct (fully_stopped _ new) eqn:Ef; [exfalso|reflexivity].
        unfold fully_stopped in Ef. rewrite forallb_forall in Ef.
        specialize (Ef t Ht). apply existsb_exists in Ef.
        destruct Ef as (u & Hu & Etu). apply Nat.eqb_eq in Etu. subst u.
        rewrite Has, Hms in Hu. unfold s0 in Hu. simpl in Hu.
        rewrite Hcur in Hu. apply in_app_or in Hu. tauto.
Qed.


(** ** The cached model *)

Lemma await_loads k s :
  is_load k = false -> loads_view (await k s) = loads_view s.
Proof.
  intros H. unfold loads_view, load_in_flight, await. simpl.
  rewrite existsb_app. simpl. now rewrite H, !orb_false_r.
Qed.

Lemma take_sound p l k rest :
  take p l = Some (k, rest) ->
  forall f, existsb f l = existsb f rest || existsb f [(p, k)].
Proof.
  revert k rest. induction l as [|[q k0] l IH]; simpl; [discriminate|].
  intros k rest H f. destruct (q =? p)%nat eqn:E.
  - apply Nat.eqb_eq in E. subst q. injection H as <- <-.
    simpl. rewrite orb_false_r. apply orb_comm.
  - destruct (take p l) as [[k' rest']|]; [|discriminate].
    injection H as <- <-. simpl. rewrite (IH _ _ eq_refl f).
    simpl. now rewrite !orb_false_r, orb_assoc.
Qed.

Lemma updatePredictions_loads preds s :
  loads_view (updatePredictions preds s) = loads_view s.
Proof. destruct preds as [[|? ?]|]; reflexivity. Qed.

Lemma stopPredictions_loads s :
  loads_view (stopPredictions s) = loads_view s.
Proof.
  unfold stopPredictions. rewrite updatePredictions_loads.
  destruct (predictInterval s); reflexivity.
Qed.

Lemma stopCamera_loads s : loads_view (stopCamera s) = loads_view s.
Proof.
  unfold stopCamera. destruct (currentStream s); [|reflexivity].
  now rewrite stopPredictions_loads.
Qed.

Lemma runOnce_resume_loads r s s' :
  runOnce_resume r s = Some s' -> loads_view s' = loads_view s.
Proof.
  destruct r as [[]|]; simpl; intros [= <-];
    auto using updatePredictions_loads.
Qed.

Lemma startCamera_loads s : loads_view (startCamera s) = loads_view s.
Proof.
  unfold startCamera. destruct (api_available _);
    [now apply await_loads | reflexivity].
Qed.

Lemma cached_frame m n s s' :
  loads_view s' = loads_view s -> cached m n s -> cached m n s'.
Proof. unfold cached. congruence. Qed.

Lemma cached_loadModel m n s :
  cached m n s -> loadModel s = (s, Returned m).
Proof. intros [= H _ _]. unfold loadModel. now rewrite H. Qed.

Lemma cached_runOnce m n s k :
  is_load k = false -> cached m n s -> cached m n (fst (runOnce k s)).
Proof.
  intros Hk H. pose proof H as [= Hm _ _]. unfold runOnce. rewrite Hm.
  simpl. eapply cached_frame; [|exact H]. now apply await_loads.
Qed.

Lemma cached_startPredictions m n s :
  cached m n s -> cached m n (startPredictions s).
Proof.
  intros H. unfold startPredictions.
  destruct (currentStream s); [|exact H].
  rewrite (cached_loadModel _ _ _ H). simpl.
  destruct (predictInterval s); [exact H|].
  pose proof (cached_runOnce m n s AwaitFirstPass eq_refl H) as H1.
  destruct (runOnce AwaitFirstPass s) as [s1 [|]]; simpl in H1; auto.
Qed.

Lemma cached_deliver m n st s :
  cached m n s -> cached m n (deliver_stream st s).
Proof.
  intros H. unfold deliver_stream.
  assert (H0 : cached m n (set_acquired (acquired s ++ [st]) s))
    by (eapply cached_frame; [|exact H]; reflexivity).
  remember (set_acquired (acquired s ++ [st]) s) as s0 eqn:E0. clear E0 H.
  unfold attachStream.
  apply cached_startPredictions.
  eapply cached_frame; [apply await_loads; reflexivity|].
  assert (H1 : cached m n
                 match currentStream s0 with
                 | Some _ => stopCamera s0
                 | None => s0
                 end).
  { destruct (currentStream s0); [|exact H0].
    eapply cached_frame; [apply stopCamera_loads | exact H0]. }
  eapply cached_frame; [|exact H1]. reflexivity.
Qed.

Lemma cached_step m n s ev s' :
  step s ev = Some s' -> cached m n s -> cached m n s'.
Proof.
  intros Hstep H. destruct ev as [| hidden | | | p r | t]; simpl in Hstep.
  - injection Hstep as <-. eapply cached_frame; [|exact H].
    rewrite startCamera_loads. unfold set_heading.
    destruct (statusText s); reflexivity.
  - destruct hidden; [destruct (currentStream s) eqn:E|];
      injection Hstep as <-; auto.
    eapply cached_frame; [|exact H]. unfold stopCamera. rewrite E.
    now rewrite stopPredictions_loads.
  - injection Hstep as <-. eapply cached_frame; [|exact H].
    apply startCamera_loads.
  - injection Hstep as <-. eapply cached_frame; [|exact H].
    apply stopCamera_loads.
  - destruct (take p (pending s)) as [[k rest]|] eqn:Et; [|discriminate].
    pose proof H as [= Hm Hn Hf]. unfold load_in_flight in Hf.
    rewrite (take_sound _ _ _ _ Et) in Hf. simpl in Hf.
    rewrite orb_false_r in Hf. apply orb_false_iff in Hf.
    destruct Hf as [Hrest Hk].
    assert (H0 : cached m n (set_pending rest s)).
    { unfold cached, loads_view, load_in_flight. simpl.
      now rewrite Hm, Hn, Hrest. }
    remember (set_pending rest s) as s0 eqn:E0. clear E0 H Et Hm Hn Hrest.
    destruct k; simpl in Hstep; try discriminate Hk.
    + destruct r as [[]|]; try discriminate; injection Hstep as <-;
        auto using cached_deliver.
      eapply cached_frame; [apply await_loads; reflexivity | exact H0].
    + destruct r as [[]|]; try discriminate;
        [destruct (chooseDevice ds)|]; injection Hstep as <-; auto.
      eapply cached_frame; [apply await_loads; reflexivity | exact H0].
    + destruct r as [[]|]; try discriminate; injection Hstep as <-;
        auto using cached_deliver.
    + destruct r as [[]|]; try discriminate; injection Hstep as <-; auto.
    + destruct (runOnce_resume r s0) as [s1|] eqn:Er; [|discriminate].
      injection Hstep as <-. eapply cached_frame; [|exact H0].
      apply runOnce_resume_loads in Er. rewrite <- Er. reflexivity.
    + eapply cached_frame; [|exact H0].
      eauto using runOnce_resume_loads.
  - destruct (existsb (Nat.eqb t) (timers s)); [|discriminate].
    injection Hstep as <-. now apply cached_runOnce.
Qed.

Lemma cached_run m n evs : forall s s',
  run s evs = Some s' -> cached m n s -> cached m n s'.
Proof.
  induction evs as [|ev evs IH]; simpl; intros s s' H Hs.
  - now injection H as <-.
  - destruct (step s ev) as [s1|] eqn:E; [|discriminate].
    eauto using cached_step.
Qed.

(** Calls in sequence.  Once a load has succeeded and no other call of
    [mobilenet.load] is unsettled, whatever happens next, every call of
    [loadModel] returns that same model at once and changes nothing, and
    [mobilenet.load] is never called again. *)
Theorem loadModel_idempotent
    (s : State) (m : Model) (evs : list Event) (s' : State) :
  model s = Some m ->
  load_in_flight s = false ->
  run s evs = Some s' ->
  loadModel s' = (s', Returned m) /\
  model s' = Some m /\
  loadCalls s' = loadCalls s.
Proof.
  intros Hm Hf Hrun.
  assert (H : cached m (loadCalls s) s')
    by (eapply cached_run; eauto; unfold cached, loads_view; congruence).
  split; [eapply cached_loadModel; eauto|].
  now injection H as -> -> _.
Qed.


(** ** A failed model load *)

Lemma heading_frame s s' :
  heading_view s' = heading_view s ->
  heading_for_load s -> heading_for_load s'.
Proof.
  unfold heading_view, heading_for_load, has_heading.
  intros [= Hh Hl] H E. rewrite Hl. apply H.
  rewrite E in Hh. now destruct (statusText s).
Qed.

Lemma await_heading k s :
  is_load k = false -> heading_view (await k s) = heading_view s.
Proof.
  intros H. pose proof (await_loads k s H) as E.
  unfold loads_view in E. injection E as E.
  unfold heading_view. now rewrite E.
Qed.

Lemma updatePredictions_heading preds s :
  heading_view (updatePredictions preds s) = heading_view s.
Proof. destruct preds as [[|? ?]|]; reflexivity. Qed.

Lemma stopCamera_heading s : heading_view (stopCamera s) = heading_view s.
Proof.
  unfold stopCamera, stopPredictions.
  destruct (currentStream s); [|reflexivity].
  rewrite updatePredictions_heading. simpl.
  destruct (predictInterval s); reflexivity.
Qed.

Lemma runOnce_heading k s :
  is_load k = false -> heading_view (fst (runOnce k s)) = heading_view s.
Proof.
  intros H. unfold runOnce. destruct (model s); simpl;
    [now apply await_heading | reflexivity].
Qed.

Lemma runOnce_resume_heading r s s' :
  runOnce_resume r s = Some s' -> heading_view s' = heading_view s.
Proof.
  destruct r as [[]|]; simpl; intros [= <-];
    auto using updatePredictions_heading.
Qed.

Lemma set_heading_view text s s' :
  set_heading text s = Some s' -> heading_view s' = heading_view s.
Proof.
  unfold set_heading, heading_view, has_heading.
  destruct (statusText s) eqn:E; [|discriminate].
  intros [= <-]. simpl. reflexivity.
Qed.

Lemma loadModel_catch_heading e s :
  heading_view (fst (loadModel_catch e s)) = heading_view s.
Proof.
  unfold loadModel_catch.
  destruct (set_heading _ _) as [s2|] eqn:E; simpl; [|reflexivity].
  now apply set_heading_view in E.
Qed.

Lemma startCamera_heading s :
  heading_view (startCamera s) = heading_view s.
Proof.
  unfold startCamera. destruct (api_available _);
    [now apply await_heading | reflexivity].
Qed.

Lemma afterLoad_heading c s :
  heading_view (startPredictions_afterLoad c s) = heading_view s.
Proof.
  unfold startPredictions_afterLoad. destruct c; try reflexivity.
  destruct (predictInterval s); [reflexivity|].
  pose proof (runOnce_heading AwaitFirstPass s eq_refl) as H.
  destruct (runOnce AwaitFirstPass s) as [s1 [|]]; simpl in H; auto.
Qed.

Lemma heading_loadModel s :
  heading_for_load s -> heading_for_load (fst (loadModel s)).
Proof.
  intros H. unfold loadModel. destruct (model s); [exact H|].
  destruct (set_heading _ s) as [s1|] eqn:E.
  - unfold set_heading in E. destruct (statusText s); [|discriminate].
    injection E as <-. intros D. discriminate D.
  - eapply heading_frame; [apply loadModel_catch_heading | exact H].
Qed.

Lemma heading_loadModel_resume r s s' c :
  loadModel_resume r s = Some (s', c) ->
  heading_for_load s -> heading_for_load s'.
Proof.
  intros E H. eapply heading_frame; [|exact H].
  unfold loadModel_resume, loadModel_catch, set_heading in E.
  destruct r as [[]|]; try discriminate; simpl in E;
    destruct (statusText s) eqn:Es; injection E as <- <-;
    unfold heading_view, has_heading; simpl; now rewrite ?Es.
Qed.

Lemma heading_startPredictions s :
  heading_for_load s -> heading_for_load (startPredictions s).
Proof.
  intros H. unfold startPredictions. destruct (currentStream s); [|exact H].
  pose proof (heading_loadModel s H) as H1.
  destruct (loadModel s) as [s1 c]. simpl in H1.
  eapply heading_frame; [apply afterLoad_heading | exact H1].
Qed.

Lemma heading_deliver st s :
  heading_for_load s -> heading_for_load (deliver_stream st s).
Proof.
  intros H. unfold deliver_stream.
  assert (H0 : heading_for_load (set_acquired (acquired s ++ [st]) s))
    by (eapply heading_frame; [|exact H]; reflexivity).
  remember (set_acquired (acquired s ++ [st]) s) as s0 eqn:E0. clear E0 H.
  unfold attachStream. apply heading_startPredictions.
  eapply heading_frame; [apply await_heading; reflexivity|].
  assert (H1 : heading_for_load
                 match currentStream s0 with
                 | Some _ => stopCamera s0
                 | None => s0
                 end).
  { destruct (currentStream s0); [|exact H0].
    eapply heading_frame; [apply stopCamera_heading | exact H0]. }
  eapply heading_frame; [|exact H1]. reflexivity.
Qed.

Lemma heading_step s ev s' :
  step s ev = Some s' -> heading_for_load s -> heading_for_load s'.
Proof.
  intros Hstep H. destruct ev as [| hidden | | | p r | t]; simpl in Hstep.
  - injection Hstep as <-. eapply heading_frame; [|exact H].
    rewrite startCamera_heading.
    destruct (set_heading _ s) as [s1|] eqn:E; [|reflexivity].
    now apply set_heading_view in E.
  - destruct hidden; [destruct (currentStream s) eqn:E|];
      injection Hstep as <-; auto.
    eapply heading_frame; [apply stopCamera_heading | exact H].
  - injection Hstep as <-. eapply heading_frame; [|exact H].
    apply startCamera_heading.
  - injection Hstep as <-.
    eapply heading_frame; [apply stopCamera_heading | exact H].
  - destruct (take p (pending s)) as [[k rest]|] eqn:Et; [|discriminate].
    assert (H0 : heading_for_load (set_pending rest s)).
    { intros E. specialize (H E). unfold load_in_flight in *.
      rewrite (take_sound _ _ _ _ Et) in H.
      apply orb_false_iff in H. simpl. tauto. }
    remember (set_pending rest s) as s0 eqn:E0. clear E0 H Et.
    destruct k; simpl in Hstep.
    + destruct r as [[]|]; try discriminate; injection Hstep as <-;
        auto using heading_deliver.
      eapply heading_frame; [apply await_heading; reflexivity | exact H0].
    + destruct r as [[]|]; try discriminate;
        [destruct (chooseDevice ds)|]; injection Hstep as <-; auto.
      eapply heading_frame; [apply await_heading; reflexivity | exact H0].
    + destruct r as [[]|]; try discriminate; injection Hstep as <-;
        auto using heading_deliver.
    + destruct r as [[]|]; try discriminate; injection Hstep as <-; auto.
    + destruct (loadModel_resume r s0) as [[s1 c]|] eqn:El; [|discriminate].
      injection Hstep as <-.
      eapply heading_frame; [apply afterLoad_heading|].
      eauto using heading_loadModel_resume.
    + destruct (runOnce_resume r s0) as [s1|] eqn:Er; [|discriminate].
      injection Hstep as <-. eapply heading_frame; [|exact H0].
      apply runOnce_resume_heading in Er. rewrite <- Er. reflexivity.
    + eapply heading_frame; [|exact H0].
      eauto using runOnce_resume_heading.
  - destruct (existsb (Nat.eqb t) (timers s)); [|discriminate].
    injection Hstep as <-.
    eapply heading_frame; [now apply runOnce_heading | exact H].
Qed.

Lemma heading_reachable s : reachable s -> heading_for_load s.
Proof.
  intros (nav & heading & items & evs & Hrun).
  assert (H0 : heading_for_load (initial nav heading items))
    by (intros _; reflexivity).
  revert Hrun H0. generalize (initial nav heading items).
  induction evs as [|ev evs IH]; simpl; intros s0 Hrun H0.
  - now injection Hrun as <-.
  - destruct (step s0 ev) as [s1|] eqn:E; [|discriminate].
    eauto using heading_step.
Qed.

(** C7.  When [mobilenet.load] rejects, the script logs the error, writes
    the error text in the status heading and gives up: no interval is
    created and the handle keeps its value (so it stays null), nothing
    new is awaited and [mobilenet.load] is not called again. *)
Theorem load_failure_stops_start
    (s : State) (p : PromiseId) (rest : list (PromiseId * Cont))
    (e : JSError) :
  reachable s ->
  take p (pending s) = Some (AwaitLoad, rest) ->
  exists s',
    step s (Settle p (Rejected e)) = Some s' /\
    statusText s' = Some model_load_failed /\
    timers s' = timers s /\
    nextTimer s' = nextTimer s /\
    predictInterval s' = predictInterval s /\
    (predictInterval s = None -> predictInterval s' = None) /\
    model s' = model s /\
    loadCalls s' = loadCalls s /\
    pending s' = rest /\
    console s' =
      (console s ++
       [ConsoleError "Error cargando MobileNet:" (Some e);
        ConsoleError "No se puede iniciar predicciones sin el modelo" None])%list.
Proof.
  intros Hr Ht.
  assert (Hh : exists txt, statusText s = Some txt).
  { destruct (statusText s) as [txt|] eqn:E; [eauto|].
    pose proof (heading_reachable s Hr E) as Hl.
    unfold load_in_flight in Hl. rewrite (take_sound _ _ _ _ Ht) in Hl.
    simpl in Hl. rewrite orb_comm in Hl. discriminate Hl. }
  destruct Hh as (txt & Hh).
  unfold step. rewrite Ht. unfold resume, loadModel_resume, loadModel_catch,
    set_heading. simpl. rewrite Hh. simpl.
  eexists. split; [reflexivity|]. simpl.
  rewrite <- app_assoc. repeat split; auto.
Qed.


(** ** The prediction loop: guards and the races they miss *)

(** The guard at the head of [startPredictions]. *)
Lemma startPredictions_requires_stream (s : State) :
  currentStream s = None -> startPredictions s = s.
Proof. intros H. unfold startPredictions. now rewrite H. Qed.

(** The guard on the handle: with the loop running and the model cached,
    a further call changes nothing. *)
Lemma startPredictions_running_noop (s : State) (t : TimerId) (m : Model) :
  predictInterval s = Some t -> model s = Some m -> startPredictions s = s.
Proof.
  intros Ht Hm. unfold startPredictions, loadModel. rewrite Hm.
  destruct (currentStream s); [|reflexivity].
  unfold startPredictions_afterLoad. now rewrite Ht.
Qed.

(** [stopCamera] on an active stream clears the handle and its interval. *)
Lemma stopCamera_stops_loop (s : State) (st : MediaStream) :
  currentStream s = Some st ->
  predictInterval (stopCamera s) = None /\
  forall t, predictInterval s = Some t -> ~ In t (timers (stopCamera s)).
Proof.
  intros H. unfold stopCamera, stopPredictions. rewrite H.
  unfold video_set_srcObject, video_invoke, set_currentStream, stop_tracks.
  cbn.
  destruct (predictInterval s) as [t|]; cbn; (split; [reflexivity|]).
  - intros t' [= <-] Hin. apply filter_In in Hin. destruct Hin as [_ Hn].
    now rewrite Nat.eqb_refl in Hn.
  - discriminate.
Qed.

(** The cache guard of [loadModel] looks at the stored model only: two
    calls that overlap before the first load settles both call
    [mobilenet.load], and the second result replaces the first. *)
Lemma overlapping_loads_request_twice (st1 st2 : MediaStream) (m1 m2 : Model) :
  exists s,
    run page (overlapping_loads st1 st2 m1 m2) = Some s /\
    loadCalls s = 2 /\
    model s = Some m2 /\
    load_in_flight s = false.
Proof.
  eexists. split; [cbv - [render_list]; reflexivity|].
  cbv - [render_list]. repeat split.
Qed.

(** C2 (the code breaks it).  The tab is hidden while the model is still
    loading: [stopCamera] clears the stream, and when the load and the
    first pass complete, [startPredictions] goes on and sets the
    interval.  The page ends with no stream stored, a non-null handle
    and a live interval that still fires. *)
Theorem loop_started_after_stop
    (st : MediaStream) (m : Model) (r : JSError + option (list Prediction)) :
  exists s,
    run page (hidden_while_loading st m r) = Some s /\
    currentStream s = None /\
    fully_stopped s st = true /\
    model s = Some m /\
    predictInterval s = Some 1 /\
    timers s = [1] /\
    step s (Tick 1) = Some (fst (runOnce AwaitTickPass s)).
Proof.
  destruct r as [e | preds];
    (eexists; split; [cbv - [render_list]; reflexivity|]);
    cbv - [render_list forallb existsb Nat.eqb]; repeat split;
    apply forallb_forall; intros t Ht;
    apply existsb_exists; exists t; (split; [exact Ht | apply Nat.eqb_refl]).
Qed.

(** C3 (the code breaks it).  A second [startCamera] delivers its stream
    while the first call of [startPredictions] is waiting for its first
    classification: the second call finds the handle still null and
    waits too, and each then sets an interval.  Two intervals are live,
    the handle names the second, and the first can no longer be
    cleared: it survives [stopCamera]. *)
Theorem overlapping_starts_two_intervals
    (st1 st2 : MediaStream) (m : Model)
    (r1 r2 : JSError + option (list Prediction)) :
  exists s,
    run page (overlapping_starts st1 st2 m r1 r2) = Some s /\
    predictInterval s = Some 2 /\
    timers s = [1; 2] /\
    loadCalls s = 1 /\
    step s (Tick 1) = Some (fst (runOnce AwaitTickPass s)) /\
    step s (Tick 2) = Some (fst (runOnce AwaitTickPass s)) /\
    predictInterval (stopCamera s) = None /\
    timers (stopCamera s) = [1].
Proof.
  destruct r1 as [e1 | preds1], r2 as [e2 | preds2];
    (eexists; split; [cbv - [render_list]; reflexivity|]);
    cbv - [render_list]; repeat split.
Qed.

(** C6 (the code breaks it).  A second [startCamera] delivers its stream
    while the first call of [loadModel] is waiting for [mobilenet.load]:
    the second call finds no model stored and calls [mobilenet.load]
    too.  When the first load succeeds its model is stored and
    [loadModel] returns it; when the second load succeeds its model
    replaces the first, and [loadModel] returns the second from then
    on.  [mobilenet.load] has been called twice. *)
Theorem overlapping_loads_two_models
    (st1 st2 : MediaStream) (m1 m2 : Model) :
  exists s1 s2,
    run page (first_of_overlapping_loads st1 st2 m1) = Some s1 /\
    model s1 = Some m1 /\
    loadModel s1 = (s1, Returned m1) /\
    loadCalls s1 = 2 /\
    load_in_flight s1 = true /\
    step s1 (Settle 5 (Fulfilled (VModel m2))) = Some s2 /\
    model s2 = Some m2 /\
    loadModel s2 = (s2, Returned m2) /\
    loadCalls s2 = 2 /\
    run page (overlapping_loads st1 st2 m1 m2) = Some s2.
Proof.
  eexists. eexists. split; [cbv - [render_list]; reflexivity|].
  cbv - [render_list]. repeat split.
Qed.

(** ** The tasks of the event loop as sequences of elementary updates *)

Lemma updates_app s1 s2 s3 :
  updates s1 s2 -> updates s2 s3 -> updates s1 s3.
Proof.
  induction 1 as [|s s1 s2 Hu Hus IH]; intros H; [exact H|].
  econstructor; eauto.
Qed.

Lemma updates_one s s' : update s s' -> updates s s'.
Proof. intros H. econstructor; [exact H | constructor]. Qed.

Ltac then_update := eapply updates_app; [|apply updates_one].

Lemma stopPredictions_updates s : updates s (stopPredictions s).
Proof.
  unfold stopPredictions. destruct (predictInterval s) eqn:E.
  - then_update; [apply updates_one, up_clear, E | apply up_render].
  - apply updates_one, up_render.
Qed.

Lemma stopCamera_updates s : updates s (stopCamera s).
Proof.
  unfold stopCamera. destruct (currentStream s) eqn:E; [|constructor].
  eapply updates_app; [apply updates_one, up_release, E|].
  apply stopPredictions_updates.
Qed.

Lemma runOnce_updates k s :
  is_pass k = true -> updates s (fst (runOnce k s)).
Proof.
  intros Hk. unfold runOnce. destruct (model s) eqn:E; simpl.
  - apply updates_one. eapply up_classify; eauto.
  - apply updates_one, up_console.
Qed.

Lemma loadModel_catch_updates e s :
  updates s (fst (loadModel_catch e s)).
Proof.
  unfold loadModel_catch, set_heading, console_error. cbn [statusText set_console].
  destruct (statusText s) eqn:E; simpl.
  - then_update; [apply updates_one, up_console|].
    eapply up_heading. exact E.
  - apply updates_one, up_console.
Qed.

Lemma afterLoad_updates c s :
  (forall m, c = Returned m -> model s = Some m) ->
  updates s (startPredictions_afterLoad c s).
Proof.
  intros Hc. unfold startPredictions_afterLoad.
  destruct c as [m | e |]; [|apply updates_one, up_console|constructor].
  destruct (predictInterval s); [constructor|].
  unfold runOnce. rewrite (Hc m eq_refl).
  apply updates_one. eapply up_classify; eauto.
Qed.

Lemma startPredictions_updates s : updates s (startPredictions s).
Proof.
  unfold startPredictions. destruct (currentStream s) as [cur|]; [|constructor].
  unfold loadModel. destruct (model s) as [m0|] eqn:Em.
  - apply afterLoad_updates. now intros m' [= <-].
  - unfold set_heading. destruct (statusText s) as [old|] eqn:Eh.
    + unfold startPredictions_afterLoad.
      eapply updates_app; [apply updates_one; eapply up_heading; exact Eh|].
      apply updates_one. eapply (up_request_load _ "Cargando modelo...");
        [reflexivity | exact Em].
    + pose proof (loadModel_catch_updates null_property s) as H.
      destruct (loadModel_catch null_property s) as [s1 c] eqn:Ec.
      simpl in H. eapply updates_app; [exact H|].
      apply afterLoad_updates. intros m1 ->.
      unfold loadModel_catch, set_heading in Ec. cbn [statusText console_error set_console] in Ec.
      rewrite Eh in Ec. discriminate Ec.
Qed.

Lemma attachStream_updates st s : updates s (attachStream st s).
Proof.
  unfold attachStream. cbv zeta.
  eapply updates_app; [|apply startPredictions_updates].
  eapply updates_app;
    [|apply updates_one; apply up_await; reflexivity].
  assert (H : exists s1,
             s1 = match currentStream s with
                  | Some _ => stopCamera s
                  | None => s
                  end /\ updates s s1 /\ currentStream s1 = None).
  { eexists. split; [reflexivity|].
    destruct (currentStream s) eqn:E.
    - split; [apply stopCamera_updates|].
      pose proof (stopCamera_streams s) as V. unfold streams_view in V.
      now injection V as -> _ _.
    - split; [constructor | exact E]. }
  destruct H as (s1 & <- & Hu & Hc).
  eapply updates_app; [exact Hu|]. apply updates_one, up_bind, Hc.
Qed.

Lemma deliver_stream_updates st s : updates s (deliver_stream st s).
Proof.
  unfold deliver_stream.
  eapply updates_app; [apply updates_one, up_acquire|].
  apply attachStream_updates.
Qed.

Lemma startCamera_updates s : updates s (startCamera s).
Proof.
  unfold startCamera. destruct (api_available _).
  - apply updates_one, up_await; reflexivity.
  - apply updates_one, up_alert.
Qed.

Lemma startCamera_catch_updates e s : updates s (startCamera_catch e s).
Proof.
  unfold startCamera_catch. cbv zeta.
  then_update; [apply updates_one, up_console | apply up_alert].
Qed.

Lemma afterFirstPass_commutes_render preds s :
  startPredictions_afterFirstPass (updatePredictions preds s) =
  updatePredictions preds (startPredictions_afterFirstPass s).
Proof. reflexivity. Qed.

Lemma afterFirstPass_commutes_console l s :
  startPredictions_afterFirstPass (set_console l s) =
  set_console l (startPredictions_afterFirstPass s).
Proof. reflexivity. Qed.

Lemma step_updates s ev s' : step s ev = Some s' -> updates s s'.
Proof.
  intros H. destruct ev as [| hidden | | | p r | t]; unfold step in H.
  - injection H as <-.
    eapply updates_app; [|apply startCamera_updates].
    unfold set_heading. destruct (statusText s) eqn:E; [|constructor].
    apply updates_one. eapply up_heading. exact E.
  - destruct hidden; [destruct (currentStream s) eqn:E|];
      injection H as <-; try constructor.
    apply stopCamera_updates.
  - injection H as <-. apply startCamera_updates.
  - injection H as <-. apply stopCamera_updates.
  - destruct (take p (pending s)) as [[k rest]|] eqn:Et; [|discriminate].
    destruct k; unfold resume in H.
    + destruct r as [[]|]; try discriminate; injection H as <-.
      * eapply updates_app; [apply updates_one; eapply up_take; exact Et|].
        apply deliver_stream_updates.
      * eapply updates_app; [apply updates_one; eapply up_take; exact Et|].
        then_update; [apply updates_one, up_console|].
        apply up_await; reflexivity.
    + destruct r as [[]|]; try discriminate;
        [destruct (chooseDevice ds)|]; injection H as <-;
        (eapply updates_app; [apply updates_one; eapply up_take; exact Et|]).
      * apply startCamera_catch_updates.
      * apply updates_one, up_await; reflexivity.
      * apply startCamera_catch_updates.
    + destruct r as [[]|]; try discriminate; injection H as <-;
        (eapply updates_app; [apply updates_one; eapply up_take; exact Et|]).
      * apply deliver_stream_updates.
      * apply startCamera_catch_updates.
    + destruct r as [[]|]; try discriminate; injection H as <-.
      * apply updates_one. eapply up_take. exact Et.
      * then_update; [apply updates_one; eapply up_take; exact Et|].
        apply up_console.
    + unfold loadModel_resume in H.
      destruct r as [[| | | m |]|]; try discriminate.
      * cbv zeta in H. unfold set_heading in H.
        cbn [statusText set_model set_pending] in H.
        destruct (statusText s) as [old|] eqn:Eh.
        -- injection H as <-.
           eapply updates_app;
             [apply updates_one; eapply (up_loaded _ p rest m); exact Et|].
           eapply updates_app;
             [apply updates_one;
              eapply (up_heading _ old "Modelo cargado"); exact Eh|].
           match goal with
           | |- updates ?X _ => apply (afterLoad_updates (Returned m) X)
           end.
           now intros m' [= <-].
        -- pose proof (loadModel_catch_updates null_property
                         (set_model (Some m) (set_pending rest s))) as Hc.
           destruct (loadModel_catch null_property _) as [s1 c] eqn:Ec.
           simpl in Hc. injection H as <-.
           eapply updates_app;
             [apply updates_one; eapply (up_loaded _ p rest m); exact Et|].
           eapply updates_app; [exact Hc|].
           apply afterLoad_updates. intros m' ->.
           unfold loadModel_catch, set_heading in Ec.
           cbn [statusText console_error set_console set_model set_pending]
             in Ec.
           rewrite Eh in Ec. discriminate Ec.
      * pose proof (loadModel_catch_updates e (set_pending rest s)) as Hc.
        destruct (loadModel_catch e _) as [s1 c] eqn:Ec.
        simpl in Hc. injection H as <-.
        eapply updates_app; [apply updates_one; eapply up_take; exact Et|].
        eapply updates_app; [exact Hc|].
        apply afterLoad_updates. intros m' ->.
        unfold loadModel_catch, set_heading in Ec.
        cbn [statusText console_error set_console set_pending] in Ec.
        destruct (statusText s); discriminate Ec.
    + unfold runOnce_resume in H.
      destruct r as [[| | | | preds]|]; try discriminate; injection H as <-.
      * rewrite afterFirstPass_commutes_render.
        then_update; [apply updates_one; eapply up_first_done; exact Et|].
        apply up_render.
      * unfold console_error. rewrite afterFirstPass_commutes_console.
        then_update; [apply updates_one; eapply up_first_done; exact Et|].
        apply up_console.
    + unfold runOnce_resume in H.
      destruct r as [[| | | | preds]|]; try discriminate; injection H as <-;
        (then_update; [apply updates_one; eapply up_take; exact Et|]).
      * apply up_render.
      * apply up_console.
  - destruct (existsb (Nat.eqb t) (timers s)); [|discriminate].
    injection H as <-. now apply runOnce_updates.
Qed.

(** A property kept by every elementary update is kept by every
    schedule. *)
Lemma updates_invariant (P : State -> Prop) :
  (forall s s', update s s' -> P s -> P s') ->
  forall s s', updates s s' -> P s -> P s'.
Proof. intros Hu s s' H. induction H; eauto. Qed.

Lemma run_invariant (P : State -> Prop) :
  (forall s s', update s s' -> P s -> P s') ->
  forall evs s s', run s evs = Some s' -> P s -> P s'.
Proof.
  intros Hu. induction evs as [|ev evs IH]; simpl; intros s s' H Hs.
  - now injection H as <-.
  - destruct (step s ev) as [s1|] eqn:E; [|discriminate].
    apply (IH _ _ H). apply step_updates in E.
    eapply updates_invariant; eauto.
Qed.

(** ** Invariants of the prediction loop and of the display *)

Lemma NoDup_snoc {A : Type} (l : list A) (x : A) :
  NoDup l -> ~ In x l -> NoDup (l ++ [x]).
Proof.
  intros Hl Hx. induction Hl as [|y l Hy Hl IH]; simpl.
  - constructor; [intros []|constructor].
  - constructor.
    + intros Hin. apply in_app_or in Hin.
      destruct Hin as [Hin | [-> | []]]; [contradiction|].
      apply Hx. now left.
    + apply IH. intros Hin. apply Hx. now right.
Qed.

Lemma timers_ok_update s s' : update s s' -> timers_ok s -> timers_ok s'.
Proof.
  intros Hu (Hnd & Hrange & Hnext & Hhandle).
  destruct Hu; unfold timers_ok; cbn; auto.
  - (* clearInterval *)
    split; [now apply NoDup_filter|]. split; [|split; [exact Hnext|]].
    + intros t' Hin. apply filter_In in Hin. apply Hrange. tauto.
    + discriminate.
  - (* setInterval *)
    split; [|split; [|split]].
    + apply NoDup_snoc; [exact Hnd|]. intros Hin. apply Hrange in Hin. lia.
    + intros t Hin. apply in_app_or in Hin.
      destruct Hin as [Hin | [<- | []]]; [apply Hrange in Hin|]; lia.
    + lia.
    + intros t [= <-]. apply in_or_app. right. now left.
Qed.

Lemma timers_ok_initial nav heading items :
  timers_ok (initial nav heading items).
Proof.
  unfold timers_ok; cbn. split; [constructor|].
  split; [intros t []|]. split; [lia | discriminate].
Qed.

(** X3.  In every state the page can reach, the live intervals have
    distinct positive handles (so the script's truth test on the handle
    is a test for null) and the stored handle, when there is one, names
    a live interval. *)
Theorem interval_handles_ok
    (nav : Navigator) (heading : option string) (items : list string)
    (evs : list Event) (s : State) :
  run (initial nav heading items) evs = Some s ->
  NoDup (timers s) /\
  (forall t, In t (timers s) -> 1 <= t) /\
  (forall t, predictInterval s = Some t -> In t (timers s)).
Proof.
  intros Hrun.
  assert (H : timers_ok s)
    by (eapply (run_invariant timers_ok);
        eauto using timers_ok_update, timers_ok_initial).
  destruct H as (Hnd & Hrange & _ & Hhandle).
  repeat split; auto. intros t Ht. apply Hrange in Ht. lia.
Qed.

Lemma model_kept_update s s' :
  update s s' -> model s <> None -> model s' <> None.
Proof. intros Hu H. destruct Hu; cbn; auto; discriminate. Qed.

(** X4.  A loaded model is never dropped: from any state in which a model
    is stored, every schedule ends in a state in which one is stored. *)
Theorem model_stays_loaded (s : State) (evs : list Event) (s' : State) :
  run s evs = Some s' -> model s <> None -> model s' <> None.
Proof.
  intros Hrun. eapply (run_invariant (fun x => model x <> None)); eauto.
  apply model_kept_update.
Qed.

Lemma pass_in_flight_await k s :
  pass_in_flight (await k s) = pass_in_flight s || is_pass k.
Proof.
  unfold pass_in_flight, await. cbn. rewrite existsb_app. cbn.
  now rewrite orb_false_r.
Qed.

Lemma load_in_flight_await k s :
  load_in_flight (await k s) = load_in_flight s || is_load k.
Proof.
  unfold load_in_flight, await. cbn. rewrite existsb_app. cbn.
  now rewrite orb_false_r.
Qed.

Lemma take_pass p s k rest :
  take p (pending s) = Some (k, rest) ->
  pass_in_flight s = existsb (fun pk => is_pass (snd pk)) rest || is_pass k.
Proof.
  intros H. unfold pass_in_flight. rewrite (take_sound _ _ _ _ H). cbn.
  now rewrite orb_false_r.
Qed.

Lemma take_load p s k rest :
  take p (pending s) = Some (k, rest) ->
  load_in_flight s = existsb (fun pk => is_load (snd pk)) rest || is_load k.
Proof.
  intros H. unfold load_in_flight. rewrite (take_sound _ _ _ _ H). cbn.
  now rewrite orb_false_r.
Qed.

Lemma loop_has_model_update s s' :
  update s s' -> loop_has_model s -> loop_has_model s'.
Proof.
  intros Hu [Hm | (Hh & Ht & Hp)].
  { left. eapply model_kept_update; eauto. }
  destruct Hu; unfold loop_has_model, loop_idle;
    try (right; cbn; now auto).
  - right. rewrite pass_in_flight_await. cbn.
    repeat split; auto. now rewrite Hp, H0.
  - right. rewrite pass_in_flight_await. cbn. repeat split; auto.
    unfold pass_in_flight in *. cbn. now rewrite Hp.
  - left. cbn. congruence.
  - congruence.
  - right. cbn. repeat split; auto.
    rewrite (take_pass _ _ _ _ H) in Hp. apply orb_false_iff in Hp.
    unfold pass_in_flight. cbn. tauto.
  - left. cbn. discriminate.
  - rewrite (take_pass _ _ _ _ H) in Hp. rewrite orb_comm in Hp.
    discriminate Hp.
Qed.

(** X5.  In every state the page can reach, a stored handle, a live
    interval or a classification under way implies that a model is
    loaded: the loop never runs without a model. *)
Theorem loop_needs_model
    (nav : Navigator) (heading : option string) (items : list string)
    (evs : list Event) (s : State) :
  run (initial nav heading items) evs = Some s ->
  predictInterval s <> None \/ timers s <> [] \/ pass_in_flight s = true ->
  model s <> None.
Proof.
  intros Hrun Hloop.
  assert (H : loop_has_model s).
  { eapply (run_invariant loop_has_model); eauto using loop_has_model_update.
    right. unfold loop_idle. cbn. auto. }
  destruct H as [Hm | (Hh & Ht & Hp)]; [exact Hm|].
  destruct Hloop as [Hl | [Hl | Hl]]; congruence.
Qed.

Lemma video_follows_stream_update s s' :
  update s s' -> video_follows_stream s -> video_follows_stream s'.
Proof.
  intros Hu (Hsrc & Hmuted).
  destruct Hu; unfold video_follows_stream; cbn; auto;
    split; try reflexivity; congruence.
Qed.

(** X6.  In every state the page can reach, the video element shows
    exactly the stored stream (nothing when none is stored), and it is
    muted whenever a stream is stored. *)
Theorem video_shows_current_stream
    (nav : Navigator) (heading : option string) (items : list string)
    (evs : list Event) (s : State) :
  run (initial nav heading items) evs = Some s ->
  srcObject (videoEl s) = currentStream s /\
  (currentStream s <> None -> muted (videoEl s) = true).
Proof.
  intros Hrun.
  eapply (run_invariant video_follows_stream);
    eauto using video_follows_stream_update.
  unfold video_follows_stream. cbn. split; [reflexivity | congruence].
Qed.

Lemma headless_idle_update s s' :
  update s s' -> headless_idle s -> headless_idle s'.
Proof.
  intros Hu (Hh & Hm & Hc & Hl & Hi & Ht & Hp).
  destruct Hu; unfold headless_idle, loop_idle;
    try (cbn; now auto); try congruence.
  - rewrite pass_in_flight_await, load_in_flight_await. cbn.
    rewrite Hl, Hp, H, H0. auto 10.
  - cbn. rewrite (take_pass _ _ _ _ H) in Hp.
    rewrite (take_load _ _ _ _ H) in Hl.
    apply orb_false_iff in Hp, Hl.
    unfold pass_in_flight, load_in_flight. cbn. intuition.
  - rewrite (take_load _ _ _ _ H) in Hl. rewrite orb_comm in Hl.
    discriminate Hl.
  - rewrite (take_pass _ _ _ _ H) in Hp. rewrite orb_comm in Hp.
    discriminate Hp.
Qed.

(** X7.  On a page without the status heading the model is never
    loaded: whatever happens, [mobilenet.load] is never called, no model
    is stored, no classification is made and no interval is set (the
    [TypeError] of writing the missing heading ends every start of the
    loop). *)
Theorem headless_page_never_predicts
    (nav : Navigator) (items : list string) (evs : list Event) (s : State) :
  run (initial nav None items) evs = Some s ->
  loadCalls s = 0 /\ model s = None /\ load_in_flight s = false /\
  pass_in_flight s = false /\ predictInterval s = None /\ timers s = [].
Proof.
  intros Hrun.
  assert (H : headless_idle s).
  { eapply (run_invariant headless_idle); eauto using headless_idle_update.
    unfold headless_idle, loop_idle. cbn. auto 10. }
  destruct H as (Hh & Hm & Hc & Hl & Hi & Ht & Hp). auto 10.
Qed.


(** ** Stopping *)

Lemma stopCamera_clears_stream s : currentStream (stopCamera s) = None.
Proof.
  pose proof (stopCamera_streams s) as V. unfold streams_view in V.
  now injection V as -> _ _.
Qed.

(** X1.  [stopCamera] on a stored stream releases everything the start
    set up: every track of the stream is stopped, nothing is stored, the
    video is paused and shows nothing, the handle is null and its
    interval is cleared, and the list shows the placeholder alone.  It
    cancels nothing that is awaited and keeps the model. *)
Theorem stopCamera_releases_everything (s : State) (st : MediaStream) :
  currentStream s = Some st ->
  currentStream (stopCamera s) = None /\
  stoppedTracks (stopCamera s) = (stoppedTracks s ++ getTracks st)%list /\
  fully_stopped (stopCamera s) st = true /\
  videoEl (stopCamera s) =
    mkVideo None (muted (videoEl s)) (invoked (videoEl s) ++ [Pause]) /\
  predictInterval (stopCamera s) = None /\
  (forall t, In t (timers (stopCamera s)) <->
             In t (timers s) /\ predictInterval s <> Some t) /\
  predictionsList (stopCamera s) = [no_predictions] /\
  pending (stopCamera s) = pending s /\
  model (stopCamera s) = model s.
Proof.
  intros H.
  assert (Hst : stoppedTracks (stopCamera s) =
                (stoppedTracks s ++ getTracks st)%list).
  { pose proof (stopCamera_streams s) as V. unfold streams_view in V.
    rewrite H in V. now injection V as _ _ ->. }
  split; [apply stopCamera_clears_stream|]. split; [exact Hst|].
  split; [now apply (fully_stopped_own s)|].
  unfold stopCamera, stopPredictions, updatePredictions, render_list.
  rewrite H.
  unfold video_set_srcObject, video_invoke, set_currentStream, stop_tracks.
  cbn. rewrite remove_children_empty.
  destruct (predictInterval s) as [t0|] eqn:E; cbn;
    (split; [reflexivity|]); (split; [reflexivity|]);
    (split; [|repeat split]); intros t.
  - rewrite filter_In, negb_true_iff, Nat.eqb_neq.
    split; intros [A B]; split; auto; congruence.
  - split; [intros A; split; [exact A | discriminate] | tauto].
Qed.

(** X2.  Stopping twice is stopping once. *)
Theorem stopCamera_idempotent (s : State) :
  stopCamera (stopCamera s) = stopCamera s.
Proof.
  unfold stopCamera at 1. now rewrite stopCamera_clears_stream.
Qed.

(** X12.  Visibility changes only ever stop the camera: a sequence of
    them leaves the state of [stopCamera] if the tab was hidden at some
    point and the state unchanged otherwise; becoming visible again
    starts nothing. *)
Theorem visibility_changes_only_stop (bs : list bool) (s : State) :
  run s (map VisibilityChange bs) =
  Some (if existsb (fun hidden => hidden) bs then stopCamera s else s).
Proof.
  revert s. induction bs as [|hidden bs IH]; intros s; [reflexivity|].
  assert (Hide : step s (VisibilityChange true) = Some (stopCamera s)).
  { unfold step, stopCamera. now destruct (currentStream s). }
  cbn [map run existsb]. destruct hidden.
  - rewrite Hide, IH. cbn [orb].
    unfold stopCamera at 1. rewrite stopCamera_clears_stream.
    now destruct (existsb _ bs).
  - cbn [step orb]. apply IH.
Qed.

(** ** Device selection and the failures of the start *)

(** X8.  The fallback only ever chooses a video device of the list it was
    given, and it fails exactly when the list has no video device, with
    the error that says so. *)
Theorem chooseDevice_result :
  (forall devices d,
      chooseDevice devices = inr d ->
      In d devices /\ kind d = videoinput) /\
  (forall devices err,
      chooseDevice devices = inl err ->
      err = no_video_devices /\
      forall d, In d devices -> kind d <> videoinput) /\
  (forall devices,
      (forall d, In d devices -> kind d <> videoinput) ->
      chooseDevice devices = inl no_video_devices).
Proof.
  assert (Hv : forall devices d,
             In d (filter (fun d => DeviceKind_eqb (kind d) videoinput)
                     devices) ->
             In d devices /\ kind d = videoinput).
  { intros devices d Hin. apply filter_In in Hin. destruct Hin as [Hin Hk].
    split; [exact Hin|]. now destruct (kind d). }
  split; [|split].
  - intros devices d. unfold chooseDevice.
    destruct (filter _ devices) as [|d0 ds] eqn:Ef; [discriminate|].
    rewrite <- Ef. destruct (find is_back _) as [c|] eqn:Efind.
    + intros [= <-]. apply Hv. eapply find_some. exact Efind.
    + destruct (nth_error _ _) as [c|] eqn:En; [|discriminate].
      intros [= <-]. apply Hv. eapply nth_error_In. exact En.
  - intros devices err. unfold chooseDevice.
    destruct (filter _ devices) as [|d0 ds] eqn:Ef.
    + intros [= <-]. split; [reflexivity|]. intros d Hin Hk.
      assert (Hd : In d (filter (fun d => DeviceKind_eqb (kind d) videoinput)
                            devices))
        by (apply filter_In; split; [exact Hin | now rewrite Hk]).
      rewrite Ef in Hd. destruct Hd.
    + rewrite <- Ef. destruct (find is_back _); [discriminate|].
      destruct (last_index (filter (fun d => DeviceKind_eqb (kind d) videoinput)
                              devices)) as (front & x & _ & ->);
        [rewrite Ef|]; discriminate.
  - intros devices Hnone. unfold chooseDevice.
    destruct (filter _ devices) as [|d0 ds] eqn:Ef; [reflexivity|].
    exfalso. destruct (Hv devices d0) as [Hin Hk];
      [rewrite Ef; now left|]. exact (Hnone d0 Hin Hk).
Qed.

(** X9.  A rejected first request (with the facing-mode hint) is not
    shown to the user: it is logged as a warning and the script goes on
    to enumerate the devices.  No alert, no stream, and the model and
    the loop are untouched. *)
Theorem facing_rejection_falls_back
    (s : State) (p : PromiseId) (rest : list (PromiseId * Cont))
    (e : JSError) :
  take p (pending s) = Some (AwaitFacingStream, rest) ->
  exists s',
    step s (Settle p (Rejected e)) = Some s' /\
    pending s' = (rest ++ [(nextPromise s, AwaitDevices)])%list /\
    console s' =
      (console s ++
       [ConsoleWarn
          "No se pudo abrir con facingMode, intentando fallback por deviceId:"
          (Some e)])%list /\
    alerts s' = alerts s /\
    currentStream s' = currentStream s /\
    videoEl s' = videoEl s /\
    model s' = model s /\
    predictInterval s' = predictInterval s /\
    timers s' = timers s.
Proof.
  intros Ht. unfold step. rewrite Ht. eexists. split; [reflexivity|].
  cbn. repeat split.
Qed.

(** X10.  When the enumeration has no video device (an empty list, or
    audio devices only), the start ends with the alert that no video
    device was found and one console error; no device is requested and
    nothing else changes. *)
Theorem no_video_device_is_reported
    (s : State) (p : PromiseId) (rest : list (PromiseId * Cont))
    (devices : list MediaDeviceInfo) :
  take p (pending s) = Some (AwaitDevices, rest) ->
  (forall d, In d devices -> kind d <> videoinput) ->
  exists s',
    step s (Settle p (Fulfilled (VDevices devices))) = Some s' /\
    alerts s' =
      (alerts s ++
       ["Error al acceder a la cámara: No se encontraron dispositivos de vídeo."])%list /\
    console s' =
      (console s ++
       [ConsoleError "No se pudo acceder a la cámara:"
          (Some no_video_devices)])%list /\
    pending s' = rest /\
    currentStream s' = currentStream s /\
    videoEl s' = videoEl s /\
    acquired s' = acquired s /\
    predictInterval s' = predictInterval s /\
    timers s' = timers s.
Proof.
  intros Ht Hnone.
  assert (Hc : chooseDevice devices = inl no_video_devices).
  { unfold chooseDevice.
    destruct (filter _ devices) as [|d0 ds] eqn:Ef; [reflexivity|].
    exfalso.
    assert (Hd : In d0 (filter (fun d => DeviceKind_eqb (kind d) videoinput)
                          devices)) by (rewrite Ef; now left).
    apply filter_In in Hd. destruct Hd as [Hin Hk].
    apply (Hnone d0 Hin). now destruct (kind d0). }
  unfold step. rewrite Ht. unfold resume. rewrite Hc.
  eexists. split; [reflexivity|]. cbn. repeat split.
Qed.

(** X11.  When the enumeration or the request for the chosen device is
    rejected, the start ends with one alert (the error's message, or its
    name when it has no message) and one console error.  Nothing is
    awaited any more (no retry), and the stored stream, the video and the
    loop are as before. *)
Theorem fallback_rejection_is_reported
    (s : State) (p : PromiseId) (k : Cont)
    (rest : list (PromiseId * Cont)) (e : JSError) :
  take p (pending s) = Some (k, rest) ->
  (k = AwaitDevices \/ exists id, k = AwaitExactStream id) ->
  exists s',
    step s (Settle p (Rejected e)) = Some s' /\
    alerts s' =
      (alerts s ++
       [("Error al acceder a la cámara: " ++
         (if (message e =? "") then errName e else message e))%string])%list /\
    console s' =
      (console s ++
       [ConsoleError "No se pudo acceder a la cámara:" (Some e)])%list /\
    pending s' = rest /\
    currentStream s' = currentStream s /\
    videoEl s' = videoEl s /\
    predictInterval s' = predictInterval s /\
    timers s' = timers s.
Proof.
  intros Ht Hk.
  assert (Hname : (if (message e =? "")%string then error_toString e
                   else message e) =
                  (if (message e =? "")%string then errName e
                   else message e)).
  { destruct (message e =? "")%string eqn:Em; [|reflexivity].
    apply String.eqb_eq in Em. unfold error_toString. rewrite Em.
    destruct (errName e =? "")%string eqn:En; [|reflexivity].
    apply String.eqb_eq in En. now rewrite En. }
  unfold step. rewrite Ht.
  destruct Hk as [-> | (id & ->)]; unfold resume, startCamera_catch;
    (eexists; split; [reflexivity|]); cbn; rewrite Hname; repeat split.
Qed.

(** ** The passes of the loop and the load *)

(** X13.  When the immediate pass of [startPredictions] settles, with
    predictions or with an error, the script sets the interval: a fresh
    handle is stored and its interval is live, whatever the handle was
    before and whether or not a stream is still stored. *)
Theorem first_pass_starts_interval
    (s : State) (p : PromiseId) (rest : list (PromiseId * Cont))
    (r : JSError + option (list Prediction)) :
  take p (pending s) = Some (AwaitFirstPass, rest) ->
  exists s',
    step s (Settle p (classified r)) = Some s' /\
    predictInterval s' = Some (nextTimer s) /\
    timers s' = (timers s ++ [nextTimer s])%list /\
    nextTimer s' = S (nextTimer s) /\
    pending s' = rest /\
    currentStream s' = currentStream s /\
    predictionsList s' =
      match r with
      | inl _ => predictionsList s
      | inr preds => render_list preds (predictionsList s)
      end.
Proof.
  intros Ht. unfold step. rewrite Ht.
  destruct r as [e | preds]; (eexists; split; [reflexivity|]); cbn;
    repeat split.
Qed.

(** X14.  The predictions of a pass of the interval are rendered and
    nothing else happens: the new state is the old one with the list
    replaced, also when the stream has been stopped in the meantime. *)
Theorem tick_result_is_rendered
    (s : State) (p : PromiseId) (rest : list (PromiseId * Cont))
    (preds : option (list Prediction)) :
  take p (pending s) = Some (AwaitTickPass, rest) ->
  step s (Settle p (Fulfilled (VPredictions preds))) =
    Some (set_predictionsList
            match preds with
            | None | Some [] => [no_predictions]
            | Some ps => map entry_text ps
            end
            (set_pending rest s)).
Proof.
  intros Ht. unfold step. rewrite Ht. cbn [resume runOnce_resume].
  unfold updatePredictions, render_list. cbn [predictionsList set_pending].
  rewrite remove_children_empty.
  destruct preds as [[|q qs]|]; try reflexivity.
  now rewrite forEach_appendChild.
Qed.

(** X15.  When [mobilenet.load] is fulfilled the model is stored and the
    heading says so; if no interval is set the immediate pass is started
    (one classification awaited), and with a handle already set nothing
    more is done.  No interval is created before that pass settles. *)
Theorem load_success_requests_first_pass
    (s : State) (p : PromiseId) (rest : list (PromiseId * Cont))
    (m : Model) :
  reachable s ->
  take p (pending s) = Some (AwaitLoad, rest) ->
  exists s',
    step s (Settle p (Fulfilled (VModel m))) = Some s' /\
    model s' = Some m /\
    statusText s' = Some "Modelo cargado" /\
    loadCalls s' = loadCalls s /\
    timers s' = timers s /\
    predictInterval s' = predictInterval s /\
    pending s' =
      match predictInterval s with
      | None => (rest ++ [(nextPromise s, AwaitFirstPass)])%list
      | Some _ => rest
      end.
Proof.
  intros Hr Ht.
  assert (Hh : exists txt, statusText s = Some txt).
  { destruct (statusText s) as [txt|] eqn:E; [eauto|].
    pose proof (heading_reachable s Hr E) as Hl.
    rewrite (take_load _ _ _ _ Ht) in Hl. rewrite orb_comm in Hl.
    discriminate Hl. }
  destruct Hh as (txt & Hh).
  unfold step. rewrite Ht.
  unfold resume, loadModel_resume, set_heading. cbv zeta.
  cbn [statusText set_model set_pending]. rewrite Hh.
  unfold startPredictions_afterLoad, runOnce.
  cbn [predictInterval model set_statusText set_model set_pending].
  destruct (predictInterval s) eqn:Ep; (eexists; split; [reflexivity|]);
    cbn; rewrite ?Ep; repeat split.
Qed.

(** X16.  The outcome of [videoEl.play()] changes nothing but the
    console: fulfilled, the state is as before; rejected, one warning is
    logged.  The stream stays attached and the loop goes on. *)
Theorem play_outcome_is_ignored
    (s : State) (p : PromiseId) (rest : list (PromiseId * Cont)) :
  take p (pending s) = Some (AwaitPlay, rest) ->
  step s (Settle p (Fulfilled VUndefined)) = Some (set_pending rest s) /\
  forall e,
    step s (Settle p (Rejected e)) =
      Some (set_console
              (console s ++ [ConsoleWarn "video.play() rechazado:" (Some e)])
              (set_pending rest s)).
Proof.
  intros Ht. unfold step. rewrite Ht. split; reflexivity.
Qed.


(** ** From page load to a running loop and back *)

(** X17.  On a page with media capture and a status heading, the load of
    the page followed by the arrival of the camera, of the model and of
    the first classification leaves the stream stored and shown muted,
    the model cached after a single load, and one interval running under
    handle 1; hiding the tab then stops every track, detaches the video,
    clears the interval and shows the placeholder, and keeps the model. *)
Theorem startup_then_hide
    (heading : string) (items : list string) (st : MediaStream) (m : Model)
    (r : JSError + option (list Prediction)) :
  exists running idle,
    run (initial (MediaDevices true) (Some heading) items) (startup st m r) =
      Some running /\
    (currentStream running = Some st /\
     videoEl running = mkVideo (Some st) true [Play] /\
     model running = Some m /\
     statusText running = Some "Modelo cargado" /\
     loadCalls running = 1 /\
     predictInterval running = Some 1 /\
     timers running = [1] /\
     alerts running = [] /\
     predictionsList running =
       match r with
       | inl _ => items
       | inr preds => render_list preds items
       end) /\
    step running (VisibilityChange true) = Some idle /\
    (currentStream idle = None /\
     fully_stopped idle st = true /\
     videoEl idle = mkVideo None true [Play; Pause] /\
     predictInterval idle = None /\
     timers idle = [] /\
     predictionsList idle = [no_predictions] /\
     model idle = Some m).
Proof.
  destruct r as [e | preds];
    (eexists; eexists; split; [cbv - [render_list]; reflexivity|]);
    (split; [cbv - [render_list]; repeat split|]);
    (split; [cbv - [render_list]; reflexivity|]);
    cbv - [render_list forallb existsb Nat.eqb remove_children];
    repeat split;
    try (unfold render_list; now rewrite remove_children_empty);
    apply forallb_forall; intros t Ht;
    apply existsb_exists; exists t; (split; [exact Ht | apply Nat.eqb_refl]).
Qed.

(** X18.  When the request with the facing-mode hint is rejected and the
    enumeration yields a device to choose, the script asks for exactly
    that device and shows no alert; the stream that answers is attached
    like one of the first request, and the model load is started. *)
Theorem fallback_attaches_chosen_device
    (heading : string) (items : list string) (e : JSError)
    (devices : list MediaDeviceInfo) (chosen : MediaDeviceInfo)
    (st : MediaStream) :
  chooseDevice devices = inr chosen ->
  exists asking attached,
    run (initial (MediaDevices true) (Some heading) items)
      (fallback e devices) = Some asking /\
    pending asking = [(2, AwaitExactStream (deviceId chosen))] /\
    alerts asking = [] /\
    currentStream asking = None /\
    step asking (Settle 2 (Fulfilled (VStream st))) = Some attached /\
    currentStream attached = Some st /\
    videoEl attached = mkVideo (Some st) true [Play] /\
    alerts attached = [] /\
    loadCalls attached = 1 /\
    pending attached = [(3, AwaitPlay); (4, AwaitLoad)].
Proof.
  intros Hc. eexists. eexists.
  split; [cbv - [chooseDevice render_list]; rewrite Hc;
          cbv - [render_list]; reflexivity|].
  split; [reflexivity|]. split; [reflexivity|]. split; [reflexivity|].
  split; [cbv - [render_list]; reflexivity|].
  cbv - [render_list]. repeat split.
Qed.


(** ** One interval and one load for each start *)

Lemma weight_snoc w l n k :
  weight w (l ++ [(n, k)]) = weight w l + b2n (w k).
Proof.
  unfold weight. rewrite filter_app, length_app. cbn.
  destruct (w k); reflexivity.
Qed.

Lemma weight_take w p l k rest :
  take p l = Some (k, rest) -> weight w l = weight w rest + b2n (w k).
Proof.
  revert k rest. induction l as [|[q k0] l IH]; simpl; [discriminate|].
  intros k rest H. destruct (q =? p)%nat.
  - injection H as <- <-. unfold weight. cbn.
    destruct (w k0); cbn; lia.
  - destruct (take p l) as [[k' rest']|]; [|discriminate].
    injection H as <- <-. specialize (IH _ _ eq_refl).
    unfold weight in *. cbn. destruct (w k0); cbn; lia.
Qed.

Lemma filter_shorter {A : Type} (f : A -> bool) (l : list A) :
  List.length (filter f l) <= List.length l.
Proof.
  induction l as [|x l IH]; simpl; [lia|]. destruct (f x); simpl; lia.
Qed.

Lemma counts_await k s :
  loop_count (await k s) = loop_count s + b2n (is_start k) /\
  load_count (await k s) = load_count s + b2n (is_request k).
Proof.
  unfold loop_count, load_count, await. cbn. rewrite !weight_snoc. lia.
Qed.

Lemma counts_take p s k rest :
  take p (pending s) = Some (k, rest) ->
  loop_count s = loop_count (set_pending rest s) + b2n (is_start k) /\
  load_count s = load_count (set_pending rest s) + b2n (is_request k).
Proof.
  intros H. unfold loop_count, load_count. cbn.
  rewrite !(weight_take _ _ _ _ _ H). lia.
Qed.

Lemma counts_stopCamera s :
  loop_count (stopCamera s) <= loop_count s /\
  load_count (stopCamera s) = load_count s.
Proof.
  unfold stopCamera, stopPredictions.
  destruct (currentStream s); [|lia].
  unfold video_set_srcObject, video_invoke, set_currentStream, stop_tracks.
  cbn. destruct (predictInterval s); unfold loop_count, load_count; cbn;
    [|lia].
  split; [apply Nat.add_le_mono_l, filter_shorter | reflexivity].
Qed.

Lemma counts_afterFirstPass s :
  loop_count (startPredictions_afterFirstPass s) = loop_count s + 1 /\
  load_count (startPredictions_afterFirstPass s) = load_count s.
Proof.
  unfold loop_count, load_count. cbn. rewrite length_app. cbn. lia.
Qed.

Lemma counts_afterLoad c s :
  loop_count (startPredictions_afterLoad c s) <= loop_count s + 1 /\
  load_count (startPredictions_afterLoad c s) = load_count s.
Proof.
  unfold startPredictions_afterLoad.
  destruct c; [|unfold loop_count, load_count; cbn; lia | lia].
  destruct (predictInterval s); [lia|].
  unfold runOnce. destruct (model s).
  - cbn [fst snd]. pose proof (counts_await AwaitFirstPass s). cbn in *. lia.
  - cbn [fst snd].
    pose proof (counts_afterFirstPass
                  (console_error "Error en clasificación:"
                     (Some null_property) s)) as H.
    unfold loop_count, load_count in *. cbn in *. lia.
Qed.

Lemma counts_loadModel_catch e s :
  loop_count (fst (loadModel_catch e s)) = loop_count s /\
  load_count (fst (loadModel_catch e s)) = load_count s.
Proof.
  unfold loadModel_catch, set_heading. cbn [statusText console_error set_console].
  destruct (statusText s); unfold loop_count, load_count; cbn; lia.
Qed.

Lemma counts_startPredictions s :
  loop_count (startPredictions s) <= loop_count s + 1 /\
  load_count (startPredictions s) <= load_count s + 1.
Proof.
  unfold startPredictions. destruct (currentStream s); [|lia].
  unfold loadModel. destruct (model s).
  - pose proof (counts_afterLoad (Returned m0) s). lia.
  - unfold set_heading. destruct (statusText s).
    + unfold startPredictions_afterLoad.
      pose proof (counts_await AwaitLoad
                    (set_loadCalls
                       (S (loadCalls
                             (set_statusText (Some "Cargando modelo...") s)))
                       (set_statusText (Some "Cargando modelo...") s))) as H.
      unfold loop_count, load_count in *. cbn in *. lia.
    + pose proof (counts_loadModel_catch null_property s) as H.
      destruct (loadModel_catch null_property s) as [s1 c]. cbn [fst] in H.
      pose proof (counts_afterLoad c s1). lia.
Qed.

Lemma counts_frame s s' :
  pending s' = pending s -> timers s' = timers s ->
  loadCalls s' = loadCalls s ->
  loop_count s' = loop_count s /\ load_count s' = load_count s.
Proof.
  unfold loop_count, load_count. intros -> -> ->. split; reflexivity.
Qed.

Lemma counts_attachStream st s :
  loop_count (attachStream st s) <= loop_count s + 1 /\
  load_count (attachStream st s) <= load_count s + 1.
Proof.
  unfold attachStream. cbv zeta.
  set (s1 := match currentStream s with Some _ => stopCamera s | None => s end).
  assert (H1 : loop_count s1 <= loop_count s /\ load_count s1 = load_count s).
  { subst s1. pose proof (counts_stopCamera s).
    destruct (currentStream s); lia. }
  clearbody s1.
  match goal with
  | |- context [startPredictions (await AwaitPlay ?x)] =>
      pose proof (counts_startPredictions (await AwaitPlay x)) as Hp;
      pose proof (counts_await AwaitPlay x) as Ha;
      assert (Hx : loop_count x = loop_count s1 /\ load_count x = load_count s1)
        by (apply counts_frame; reflexivity)
  end.
  cbn [is_start is_request b2n] in Ha. lia.
Qed.

Lemma counts_deliver st s :
  loop_count (deliver_stream st s) <= loop_count s + 1 /\
  load_count (deliver_stream st s) <= load_count s + 1.
Proof.
  unfold deliver_stream.
  pose proof (counts_attachStream st (set_acquired (acquired s ++ [st]) s)).
  assert (loop_count (set_acquired (acquired s ++ [st]) s) = loop_count s /\
          load_count (set_acquired (acquired s ++ [st]) s) = load_count s)
    by (apply counts_frame; reflexivity).
  lia.
Qed.

Lemma counts_startCamera s :
  loop_count (startCamera s) <= loop_count s + 1 /\
  load_count (startCamera s) <= load_count s + 1.
Proof.
  unfold startCamera. destruct (api_available _).
  - pose proof (counts_await AwaitFacingStream s). cbn in *. lia.
  - unfold loop_count, load_count. cbn. lia.
Qed.

Lemma counts_runOnce_resume r s s' :
  runOnce_resume r s = Some s' ->
  loop_count s' = loop_count s /\ load_count s' = load_count s.
Proof.
  destruct r as [[]|]; simpl; intros [= <-]; split; reflexivity.
Qed.

Lemma counts_loadModel_resume r s s' c :
  loadModel_resume r s = Some (s', c) ->
  loop_count s' = loop_count s /\ load_count s' = load_count s.
Proof.
  unfold loadModel_resume, loadModel_catch, set_heading.
  destruct r as [[]|]; try discriminate; simpl;
    destruct (statusText s); intros [= <- <-]; split; reflexivity.
Qed.

Lemma counts_step s ev s' :
  step s ev = Some s' ->
  loop_count s' <= loop_count s + b2n (is_start_event ev) /\
  load_count s' <= load_count s + b2n (is_start_event ev).
Proof.
  intros H. destruct ev as [| hidden | | | p r | t]; unfold step in H;
    cbn [is_start_event b2n].
  - injection H as <-.
    match goal with
    | |- context [startCamera ?x] => pose proof (counts_startCamera x) as Hc;
        assert (Hx : loop_count x = loop_count s /\ load_count x = load_count s)
    end.
    { unfold set_heading. destruct (statusText s); split; reflexivity. }
    lia.
  - pose proof (counts_stopCamera s).
    destruct hidden; [destruct (currentStream s)|]; injection H as <-; lia.
  - injection H as <-. apply counts_startCamera.
  - injection H as <-. pose proof (counts_stopCamera s). lia.
  - destruct (take p (pending s)) as [[k rest]|] eqn:Et; [|discriminate].
    pose proof (counts_take _ _ _ _ Et) as Hk.
    remember (set_pending rest s) as s0 eqn:E0. clear E0 Et.
    destruct k; unfold resume in H; cbn [is_start is_request b2n] in Hk.
    + destruct r as [[]|]; try discriminate; injection H as <-.
      * pose proof (counts_deliver st s0). lia.
      * match goal with
        | |- context [await AwaitDevices ?x] =>
            pose proof (counts_await AwaitDevices x) as Ha;
            assert (Hx : loop_count x = loop_count s0 /\
                         load_count x = load_count s0)
              by (split; reflexivity)
        end.
        cbn [is_start is_request b2n] in Ha. lia.
    + destruct r as [[]|]; try discriminate;
        [destruct (chooseDevice ds)|]; injection H as <-.
      * unfold loop_count, load_count in *. cbn. lia.
      * pose proof (counts_await (AwaitExactStream (deviceId m)) s0) as Ha.
        cbn [is_start is_request b2n] in Ha. lia.
      * unfold loop_count, load_count in *. cbn. lia.
    + destruct r as [[]|]; try discriminate; injection H as <-.
      * pose proof (counts_deliver st s0). lia.
      * unfold loop_count, load_count in *. cbn. lia.
    + destruct r as [[]|]; try discriminate; injection H as <-;
        unfold loop_count, load_count in *; cbn; lia.
    + destruct (loadModel_resume r s0) as [[s1 c]|] eqn:El; [|discriminate].
      injection H as <-. apply counts_loadModel_resume in El.
      pose proof (counts_afterLoad c s1). lia.
    + destruct (runOnce_resume r s0) as [s1|] eqn:Er; [|discriminate].
      injection H as <-. apply counts_runOnce_resume in Er.
      pose proof (counts_afterFirstPass s1). lia.
    + apply counts_runOnce_resume in H. lia.
  - destruct (existsb (Nat.eqb t) (timers s)); [|discriminate].
    injection H as <-. unfold runOnce. destruct (model s); cbn [fst].
    + pose proof (counts_await AwaitTickPass s) as Ha.
      cbn [is_start is_request b2n] in Ha. lia.
    + unfold loop_count, load_count. cbn. lia.
Qed.

Lemma counts_run evs : forall s s',
  run s evs = Some s' ->
  loop_count s' <= loop_count s + count_starts evs /\
  load_count s' <= load_count s + count_starts evs.
Proof.
  induction evs as [|ev evs IH]; simpl; intros s s' H.
  - injection H as <-. unfold count_starts. cbn. lia.
  - destruct (step s ev) as [s1|] eqn:E; [|discriminate].
    apply counts_step in E. apply IH in H.
    unfold count_starts in *. cbn [filter].
    destruct (is_start_event ev); cbn [List.length b2n] in *; lia.
Qed.

(** X19.  The script never has more intervals than [startCamera] has been
    called (by the page load or through [window.startCamera]): every
    call has at most one of a pending request, a pending model load, a
    pending immediate pass or a live interval to show for it.  A page
    that starts the camera once, on load, has at most one interval. *)
Theorem one_interval_per_start
    (nav : Navigator) (heading : option string) (items : list string)
    (evs : list Event) (s : State) :
  run (initial nav heading items) evs = Some s ->
  weight is_start (pending s) + List.length (timers s) <= count_starts evs /\
  List.length (timers s) <= count_starts evs.
Proof.
  intros H. apply counts_run in H. destruct H as [H _].
  change (loop_count (initial nav heading items)) with 0 in H.
  unfold loop_count in H. lia.
Qed.

(** X20.  [mobilenet.load] is never called more often than [startCamera]:
    a page that starts the camera once, on load, requests the model at
    most once, also after a failed load. *)
Theorem one_load_per_start
    (nav : Navigator) (heading : option string) (items : list string)
    (evs : list Event) (s : State) :
  run (initial nav heading items) evs = Some s ->
  loadCalls s <= count_starts evs.
Proof.
  intros H. apply counts_run in H. destruct H as [_ H].
  change (load_count (initial nav heading items)) with 0 in H.
  unfold load_count in H. lia.
Qed.

End App.

(** ** The statements at the sample pages *)

Lemma updatePredictions_renders_witness :
  JSNumber.mul (probability cat_prediction) JSNumber.hundred =
    S754_finite false 6003861253238292 (-46) /\
  JSNumber.ge_pow10 6003861253238292 (-46) 21 = false /\
  entry_text sample_toString cat_prediction = "cat — 85.32%" /\
  exists a b,
    entry_text sample_toString cat_prediction =
      className cat_prediction ++ " — " ++ (a ++ "." ++ b) ++ "%" /\
    String.length b = 2 /\ 1 <= String.length a.
Proof.
  split; [reflexivity|]. split; [reflexivity|]. split; [reflexivity|].
  apply (proj1 (proj2 (proj2 (updatePredictions_renders sample_toString)))
           cat_prediction false 6003861253238292%positive (-46)%Z);
    reflexivity.
Defined.

Lemma one_active_stream_witness :
  run sample_toString (initial (MediaDevices true) (Some "") []) second_start =
    Some second_start_state /\
  ((forall st, active second_start_state st = true ->
               currentStream second_start_state = Some st) /\
   (forall st1 st2,
       active second_start_state st1 = true ->
       active second_start_state st2 = true -> st1 = st2) /\
   (forall p k rest old new,
       currentStream second_start_state = Some old ->
       take p (pending second_start_state) = Some (k, rest) ->
       is_getUserMedia k = true ->
       exists mid s',
         mid = stopCamera sample_toString
                 (set_acquired (acquired second_start_state ++ [new])
                    (set_pending rest second_start_state)) /\
         currentStream mid = None /\
         fully_stopped mid old = true /\
         s' = attachStream sample_toString new mid /\
         step sample_toString second_start_state
           (Settle p (Fulfilled (VStream new))) = Some s' /\
           currentStream s' = Some new /\
         fully_stopped s' old = true /\
         (forall st, active s' st = true -> st = new) /\
         (forall t, In t (getTracks new) ->
                    ~ In t (stoppedTracks second_start_state) ->
                    ~ In t (getTracks old) ->
                    active s' new = true))).
Proof.
  split; [reflexivity|].
  apply (one_active_stream sample_toString (MediaDevices true) (Some "") []
           second_start second_start_state).
  reflexivity.
Defined.

Lemma chooseDevice_prefers_back_witness :
  filter (fun d => DeviceKind_eqb (kind d) videoinput)
    [mkDevice "mic" audioinput "Back Microphone";
     mkDevice "cam0" videoinput "Front Camera";
     mkDevice "cam1" videoinput "BACK Camera"] <> [] /\
  exists chosen,
    chooseDevice [mkDevice "mic" audioinput "Back Microphone";
                  mkDevice "cam0" videoinput "Front Camera";
                  mkDevice "cam1" videoinput "BACK Camera"] = inr chosen /\
    deviceId chosen = "cam1".
Proof.
  split; [discriminate|].
  destruct (proj1 (chooseDevice_prefers_back sample_toString)
              [mkDevice "mic" audioinput "Back Microphone";
               mkDevice "cam0" videoinput "Front Camera";
               mkDevice "cam1" videoinput "BACK Camera"])
    as (chosen & Hc & _); [discriminate|].
  exists chosen. split; [exact Hc|].
  vm_compute in Hc. injection Hc as <-. reflexivity.
Defined.

Lemma loadModel_idempotent_witness :
  (run sample_toString page first_load = Some loaded_state /\
   loadCalls loaded_state = 1) /\
  model loaded_state = Some 7 /\
  load_in_flight loaded_state = false /\
  run sample_toString loaded_state restart = Some restarted_state /\
  (loadModel restarted_state = (restarted_state, Returned 7) /\
   model restarted_state = Some 7 /\
   loadCalls restarted_state = loadCalls loaded_state).
Proof.
  split; [split; reflexivity|].
  split; [reflexivity|]. split; [reflexivity|]. split; [reflexivity|].
  apply (loadModel_idempotent sample_toString loaded_state 7 restart
           restarted_state); reflexivity.
Defined.

Lemma load_failure_stops_start_witness :
  reachable sample_toString loading_state /\
  take 2 (pending loading_state) = Some (AwaitLoad, [(1, AwaitPlay)]) /\
  exists s',
    step sample_toString loading_state (Settle 2 (Rejected network_error)) =
      Some s' /\
    statusText s' = Some model_load_failed /\
    timers s' = timers loading_state /\
    nextTimer s' = nextTimer loading_state /\
    predictInterval s' = predictInterval loading_state /\
    (predictInterval loading_state = None -> predictInterval s' = None) /\
    model s' = model loading_state /\
    loadCalls s' = loadCalls loading_state /\
    pending s' = [(1, AwaitPlay)] /\
    console s' =
      (console loading_state ++
       [ConsoleError "Error cargando MobileNet:" (Some network_error);
        ConsoleError "No se puede iniciar predicciones sin el modelo" None])%list.
Proof.
  assert (R : reachable sample_toString loading_state)
    by (exists (MediaDevices true), (Some ""), [], loading; reflexivity).
  split; [exact R|]. split; [reflexivity|].
  apply (load_failure_stops_start sample_toString loading_state 2
           [(1, AwaitPlay)] network_error R).
  reflexivity.
Defined.

Lemma failed_pass_is_skipped_witness :
  take 4 (pending ticking_state) = Some (AwaitTickPass, [(1, AwaitPlay)]) /\
  is_pass AwaitTickPass = true /\
  predictionsList ticking_state = ["cat — 85.32%"] /\
  exists s',
    step sample_toString ticking_state (Settle 4 (Rejected classify_error)) =
      Some s' /\
    predictionsList s' = predictionsList ticking_state /\
    console s' =
      (console ticking_state ++
       [ConsoleError "Error en clasificación:" (Some classify_error)])%list /\
    (forall t, In t (timers ticking_state) -> In t (timers s')) /\
    (AwaitTickPass = AwaitTickPass ->
       timers s' = timers ticking_state /\
       predictInterval s' = predictInterval ticking_state) /\
    (forall t, In t (timers s') ->
       exists s'',
         step sample_toString s' (Tick t) = Some s'' /\
         predictionsList s'' = predictionsList ticking_state /\
         (model ticking_state <> None ->
            pending s'' =
              (pending s' ++ [(nextPromise s', AwaitTickPass)])%list)).
Proof.
  split; [reflexivity|]. split; [reflexivity|]. split; [reflexivity|].
  apply (failed_pass_is_skipped sample_toString ticking_state 4 AwaitTickPass
           [(1, AwaitPlay)] classify_error); reflexivity.
Defined.

Lemma stopCamera_without_stream_is_noop_witness :
  currentStream page = None /\
  (stopCamera sample_toString page = page /\
   step sample_toString page CallStopCamera = Some page /\
   step sample_toString page (VisibilityChange true) = Some page).
Proof.
  split; [reflexivity|].
  apply (stopCamera_without_stream_is_noop sample_toString page).
  reflexivity.
Defined.

Lemma startCamera_without_api_witness :
  api_available (navigator old_browser) = false /\
  (step sample_toString old_browser CallStartCamera =
     Some (set_alerts (alerts old_browser ++ [getUserMedia_unavailable])
             old_browser) /\
   (forall s', step sample_toString old_browser CallStartCamera = Some s' ->
      currentStream s' = currentStream old_browser /\
      model s' = model old_browser /\
      predictInterval s' = predictInterval old_browser /\
      videoEl s' = videoEl old_browser /\
      statusText s' = statusText old_browser /\
      predictionsList s' = predictionsList old_browser /\
      timers s' = timers old_browser /\
      stoppedTracks s' = stoppedTracks old_browser /\
      acquired s' = acquired old_browser /\
      loadCalls s' = loadCalls old_browser /\
      console s' = console old_browser /\
      pending s' = pending old_browser)).
Proof.
  split; [reflexivity|].
  apply (startCamera_without_api sample_toString old_browser).
  reflexivity.
Defined.

Lemma stopCamera_releases_everything_witness :
  currentStream loading_state = Some front_stream /\
  currentStream (stopCamera sample_toString loading_state) = None /\
  fully_stopped (stopCamera sample_toString loading_state) front_stream =
    true /\
  pending (stopCamera sample_toString loading_state) = pending loading_state.
Proof.
  split; [reflexivity|].
  destruct (stopCamera_releases_everything sample_toString loading_state
              front_stream eq_refl)
    as (H1 & _ & H3 & _ & _ & _ & _ & H8 & _).
  auto.
Defined.

Lemma interval_handles_ok_witness :
  run sample_toString (initial (MediaDevices true) (Some "") []) ticking =
    Some ticking_state /\
  NoDup (timers ticking_state) /\
  (forall t, In t (timers ticking_state) -> 1 <= t) /\
  (forall t, predictInterval ticking_state = Some t ->
             In t (timers ticking_state)).
Proof.
  split; [reflexivity|].
  apply (interval_handles_ok sample_toString (MediaDevices true) (Some "") []
           ticking ticking_state).
  reflexivity.
Defined.

Lemma model_stays_loaded_witness :
  run sample_toString loaded_state restart = Some restarted_state /\
  model loaded_state <> None /\
  model restarted_state <> None.
Proof.
  split; [reflexivity|]. split; [discriminate|].
  apply (model_stays_loaded sample_toString loaded_state restart
           restarted_state); [reflexivity | discriminate].
Defined.

Lemma loop_needs_model_witness :
  run sample_toString (initial (MediaDevices true) (Some "") []) ticking =
    Some ticking_state /\
  (predictInterval ticking_state <> None \/
   timers ticking_state <> [] \/ pass_in_flight ticking_state = true) /\
  model ticking_state <> None.
Proof.
  split; [reflexivity|]. split; [left; discriminate|].
  apply (loop_needs_model sample_toString (MediaDevices true) (Some "") []
           ticking ticking_state); [reflexivity | left; discriminate].
Defined.

Lemma video_shows_current_stream_witness :
  run sample_toString (initial (MediaDevices true) (Some "") []) loading =
    Some loading_state /\
  srcObject (videoEl loading_state) = currentStream loading_state /\
  (currentStream loading_state <> None ->
   muted (videoEl loading_state) = true).
Proof.
  split; [reflexivity|].
  apply (video_shows_current_stream sample_toString (MediaDevices true)
           (Some "") [] loading loading_state).
  reflexivity.
Defined.

Lemma headless_page_never_predicts_witness :
  run sample_toString (initial (MediaDevices true) None []) loading =
    Some headless_state /\
  currentStream headless_state = Some front_stream /\
  loadCalls headless_state = 0 /\ model headless_state = None /\
  load_in_flight headless_state = false /\
  pass_in_flight headless_state = false /\
  predictInterval headless_state = None /\ timers headless_state = [].
Proof.
  split; [reflexivity|]. split; [reflexivity|].
  apply (headless_page_never_predicts sample_toString (MediaDevices true) []
           loading headless_state).
  reflexivity.
Defined.

Lemma chooseDevice_result_witness :
  chooseDevice two_cameras =
    inr (mkDevice "cam1" videoinput "Cámara TRASERA") /\
  (In (mkDevice "cam1" videoinput "Cámara TRASERA") two_cameras /\
   kind (mkDevice "cam1" videoinput "Cámara TRASERA") = videoinput) /\
  (forall d, In d [microphone] -> kind d <> videoinput) /\
  chooseDevice [microphone] = inl no_video_devices.
Proof.
  split; [reflexivity|].
  split; [apply (proj1 chooseDevice_result two_cameras); reflexivity|].
  assert (H : forall d, In d [microphone] -> kind d <> videoinput)
    by (intros d [<- | []]; discriminate).
  split; [exact H|].
  apply (proj2 (proj2 chooseDevice_result) [microphone] H).
Defined.

Lemma facing_rejection_falls_back_witness :
  take 0 (pending requesting_state) = Some (AwaitFacingStream, []) /\
  exists s',
    step sample_toString requesting_state
      (Settle 0 (Rejected permission_denied)) = Some s' /\
    pending s' = [(1, AwaitDevices)] /\
    alerts s' = [].
Proof.
  split; [reflexivity|].
  destruct (facing_rejection_falls_back sample_toString requesting_state 0 []
              permission_denied eq_refl)
    as (s' & H1 & H2 & _ & H4 & _).
  exists s'. auto.
Defined.

Lemma no_video_device_is_reported_witness :
  take 1 (pending enumerating_state) = Some (AwaitDevices, []) /\
  (forall d, In d [microphone] -> kind d <> videoinput) /\
  exists s',
    step sample_toString enumerating_state
      (Settle 1 (Fulfilled (VDevices [microphone]))) = Some s' /\
    alerts s' =
      ["Error al acceder a la cámara: No se encontraron dispositivos de vídeo."] /\
    pending s' = [].
Proof.
  assert (H : forall d, In d [microphone] -> kind d <> videoinput)
    by (intros d [<- | []]; discriminate).
  split; [reflexivity|]. split; [exact H|].
  destruct (no_video_device_is_reported sample_toString enumerating_state 1 []
              [microphone] eq_refl H)
    as (s' & H1 & H2 & _ & H4 & _).
  exists s'. auto.
Defined.

Lemma fallback_rejection_is_reported_witness :
  take 1 (pending enumerating_state) = Some (AwaitDevices, []) /\
  (AwaitDevices = AwaitDevices \/
   exists id, AwaitDevices = AwaitExactStream id) /\
  exists s',
    step sample_toString enumerating_state
      (Settle 1 (Rejected permission_denied)) = Some s' /\
    alerts s' = ["Error al acceder a la cámara: Permission denied"] /\
    pending s' = [].
Proof.
  split; [reflexivity|]. split; [now left|].
  destruct (fallback_rejection_is_reported sample_toString enumerating_state
              1 AwaitDevices [] permission_denied eq_refl (or_introl eq_refl))
    as (s' & H1 & H2 & _ & H4 & _).
  exists s'. auto.
Defined.

Lemma first_pass_starts_interval_witness :
  take 3 (pending loaded_state) = Some (AwaitFirstPass, [(1, AwaitPlay)]) /\
  exists s',
    step sample_toString loaded_state (Settle 3 (classified (inr (Some []))))
      = Some s' /\
    predictInterval s' = Some 1 /\
    timers s' = [1].
Proof.
  split; [reflexivity|].
  destruct (first_pass_starts_interval sample_toString loaded_state 3
              [(1, AwaitPlay)] (inr (Some [])) eq_refl)
    as (s' & H1 & H2 & H3 & _).
  exists s'. auto.
Defined.

Lemma tick_result_is_rendered_witness :
  take 4 (pending ticking_state) = Some (AwaitTickPass, [(1, AwaitPlay)]) /\
  step sample_toString ticking_state
    (Settle 4 (Fulfilled (VPredictions (Some [cat_prediction])))) =
  Some (set_predictionsList ["cat — 85.32%"]
          (set_pending [(1, AwaitPlay)] ticking_state)).
Proof.
  split; [reflexivity|].
  exact (tick_result_is_rendered sample_toString ticking_state 4
           [(1, AwaitPlay)] (Some [cat_prediction]) eq_refl).
Defined.

Lemma load_success_requests_first_pass_witness :
  reachable sample_toString loading_state /\
  take 2 (pending loading_state) = Some (AwaitLoad, [(1, AwaitPlay)]) /\
  exists s',
    step sample_toString loading_state (Settle 2 (Fulfilled (VModel 7))) =
      Some s' /\
    model s' = Some 7 /\
    statusText s' = Some "Modelo cargado" /\
    timers s' = [] /\
    pending s' = [(1, AwaitPlay); (3, AwaitFirstPass)].
Proof.
  assert (R : reachable sample_toString loading_state)
    by (exists (MediaDevices true), (Some ""), [], loading; reflexivity).
  split; [exact R|]. split; [reflexivity|].
  destruct (load_success_requests_first_pass sample_toString loading_state 2
              [(1, AwaitPlay)] 7 R eq_refl)
    as (s' & H1 & H2 & H3 & _ & H5 & _ & H7).
  exists s'. auto.
Defined.

Lemma play_outcome_is_ignored_witness :
  take 1 (pending loading_state) = Some (AwaitPlay, [(2, AwaitLoad)]) /\
  step sample_toString loading_state (Settle 1 (Fulfilled VUndefined)) =
    Some (set_pending [(2, AwaitLoad)] loading_state).
Proof.
  split; [reflexivity|].
  apply (play_outcome_is_ignored sample_toString loading_state 1
           [(2, AwaitLoad)]).
  reflexivity.
Defined.

Lemma fallback_attaches_chosen_device_witness :
  chooseDevice two_cameras =
    inr (mkDevice "cam1" videoinput "Cámara TRASERA") /\
  exists asking attached,
    run sample_toString (initial (MediaDevices true) (Some "") [])
      (fallback permission_denied two_cameras) = Some asking /\
    pending asking = [(2, AwaitExactStream "cam1")] /\
    step sample_toString asking (Settle 2 (Fulfilled (VStream back_stream))) =
      Some attached /\
    currentStream attached = Some back_stream.
Proof.
  split; [reflexivity|].
  destruct (fallback_attaches_chosen_device sample_toString "" []
              permission_denied two_cameras
              (mkDevice "cam1" videoinput "Cámara TRASERA") back_stream
              eq_refl)
    as (asking & attached & H1 & H2 & _ & _ & H5 & H6 & _).
  exists asking, attached. auto.
Defined.

Lemma one_interval_per_start_witness :
  run sample_toString (initial (MediaDevices true) (Some "") []) ticking =
    Some ticking_state /\
  weight is_start (pending ticking_state) +
    List.length (timers ticking_state) <= count_starts ticking /\
  List.length (timers ticking_state) <= count_starts ticking.
Proof.
  split; [reflexivity|].
  apply (one_interval_per_start sample_toString (MediaDevices true) (Some "")
           [] ticking ticking_state).
  reflexivity.
Defined.

Lemma one_load_per_start_witness :
  run sample_toString (initial (MediaDevices true) (Some "") []) first_load =
    Some loaded_state /\
  loadCalls loaded_state <= count_starts first_load.
Proof.
  split; [reflexivity|].
  apply (one_load_per_start sample_toString (MediaDevices true) (Some "") []
           first_load loaded_state).
  reflexivity.
Defined.
